(** * LEG: a minimal virtual CPU (leg.py)

    A shallow embedding of the [LEG] class of [leg.py]: the two enumerations,
    the register dictionary, the opcode dispatch table, the ALU and jump
    handlers and the [tick] driver, followed by the properties of the
    execution engine.

    Python objects that can sit in a program slot or in a register are
    modelled by [value]; Python exceptions by [exn]; the methods of the class
    by computations in a state-and-exception monad over the instance [LEG]. *)

From Stdlib Require Import ZArith Lia Bool.
From stdpp Require Import base decidable countable option list gmap.

Local Open Scope Z_scope.

(** ** Enumerations *)

(** [class Opcodes(Enum)] *)
Inductive Opcodes : Set :=
  | ADD | ADDI | AND | ANDI      (* calculations *)
  | IFEQ | IFNE                  (* jumps *)
  | LOAD | SAVE.                 (* load from and save to RAM *)

(** [class Addresses(Enum)] *)
Inductive Addresses : Set :=
  | REG0 | REG1 | REG2 | REG3 | REG4 | REG5 | PC | IO.

(** The numeric code attached to each member. *)
Definition Opcodes_value (o : Opcodes) : Z :=
  match o with
  | ADD => 0x00 | ADDI => 0x80 | AND => 0x01 | ANDI => 0x81
  | IFEQ => 0x20 | IFNE => 0x21
  | LOAD => 0x30 | SAVE => 0x31
  end.

Definition Addresses_value (a : Addresses) : Z :=
  match a with
  | REG0 => 0x00 | REG1 => 0x01 | REG2 => 0x02 | REG3 => 0x03
  | REG4 => 0x04 | REG5 => 0x05 | PC => 0x06 | IO => 0x07
  end.

(** Lookup of a member by its code, [Opcodes(n)] and [Addresses(n)]. *)
Definition Opcodes_of_value (n : Z) : option Opcodes :=
  match n with
  | 0x00 => Some ADD | 0x80 => Some ADDI | 0x01 => Some AND | 0x81 => Some ANDI
  | 0x20 => Some IFEQ | 0x21 => Some IFNE
  | 0x30 => Some LOAD | 0x31 => Some SAVE
  | _ => None
  end.

Definition Addresses_of_value (n : Z) : option Addresses :=
  match n with
  | 0x00 => Some REG0 | 0x01 => Some REG1 | 0x02 => Some REG2 | 0x03 => Some REG3
  | 0x04 => Some REG4 | 0x05 => Some REG5 | 0x06 => Some PC | 0x07 => Some IO
  | _ => None
  end.

Definition Opcodes_of_value_inv (o : Opcodes) : Opcodes_of_value (Opcodes_value o) = Some o :=
  match o with
  | ADD | ADDI | AND | ANDI | IFEQ | IFNE | LOAD | SAVE => eq_refl
  end.

Definition Addresses_of_value_inv (a : Addresses) :
  Addresses_of_value (Addresses_value a) = Some a :=
  match a with
  | REG0 | REG1 | REG2 | REG3 | REG4 | REG5 | PC | IO => eq_refl
  end.

#[global] Instance Opcodes_eq_dec : EqDecision Opcodes.
Proof. solve_decision. Defined.

#[global] Instance Addresses_eq_dec : EqDecision Addresses.
Proof. solve_decision. Defined.

#[global] Instance Opcodes_countable : Countable Opcodes :=
  inj_countable Opcodes_value Opcodes_of_value Opcodes_of_value_inv.

#[global] Instance Addresses_countable : Countable Addresses :=
  inj_countable Addresses_value Addresses_of_value Addresses_of_value_inv.

(** ** Python values

    A program slot holds a plain [int] or a member of one of the two
    enumerations ([Opcodes.ADDI, Addresses.REG0, 10, Addresses.REG0]).
    Neither enumeration derives from [int]: a member is equal only to itself,
    so [VInt 0], [VOpcode ADD] and [VAddress REG0] are three different
    objects, as dictionary keys too.  Python's [int] is unbounded. *)
Inductive value : Set :=
  | VInt (z : Z)
  | VOpcode (o : Opcodes)
  | VAddress (a : Addresses).

#[global] Instance value_eq_dec : EqDecision value.
Proof. solve_decision. Defined.

Definition value_to_sum (v : value) : Z + (Opcodes + Addresses) :=
  match v with
  | VInt z => inl z
  | VOpcode o => inr (inl o)
  | VAddress a => inr (inr a)
  end.

Definition value_of_sum (x : Z + (Opcodes + Addresses)) : value :=
  match x with
  | inl z => VInt z
  | inr (inl o) => VOpcode o
  | inr (inr a) => VAddress a
  end.

Definition value_of_to_sum (v : value) : value_of_sum (value_to_sum v) = v :=
  match v with
  | VInt _ | VOpcode _ | VAddress _ => eq_refl
  end.

#[global] Instance value_countable : Countable value :=
  inj_countable' value_to_sum value_of_sum value_of_to_sum.

(** ** Exceptions and results *)

Inductive exn : Set := TypeError | IndexError | KeyError | ZeroDivisionError.

Inductive result (A : Type) : Type :=
  | Ok (a : A)
  | Raise (e : exn).
Arguments Ok {A} a.
Arguments Raise {A} e.

(** ** Python operators on values *)

(** [a + b]: defined on two ints; an enumeration member has no [__add__]. *)
Definition py_add (a b : value) : result value :=
  match a, b with
  | VInt x, VInt y => Ok (VInt (x + y))
  | _, _ => Raise TypeError
  end.

(** [a % b]: floor remainder, the sign of the result follows the divisor. *)
Definition py_mod (a b : value) : result value :=
  match a, b with
  | VInt x, VInt y => if y =? 0 then Raise ZeroDivisionError else Ok (VInt (x mod y))
  | _, _ => Raise TypeError
  end.

(** [a & b]: bitwise and on unbounded two's-complement ints. *)
Definition py_and (a b : value) : result value :=
  match a, b with
  | VInt x, VInt y => Ok (VInt (Z.land x y))
  | _, _ => Raise TypeError
  end.

(** [a == b]: numeric equality on ints, identity on enumeration members,
    [False] across kinds; it never raises. *)
Definition py_eq (a b : value) : bool := bool_decide (a = b).

(** [l[i]]: the index must be an int; a negative index counts from the end. *)
Definition list_getitem (l : list value) (i : value) : result value :=
  match i with
  | VInt z =>
      let n := Z.of_nat (length l) in
      let k := if z <? 0 then z + n else z in
      if (0 <=? k) && (k <? n) then
        match l !! Z.to_nat k with
        | Some v => Ok v
        | None => Raise IndexError
        end
      else Raise IndexError
  | _ => Raise TypeError
  end.

(** [k in d], [d[k]] and [d[k] = v] on a dictionary keyed by Python values. *)
Definition dict_contains {V : Type} (d : gmap value V) (k : value) : bool :=
  match d !! k with Some _ => true | None => false end.

Definition dict_getitem {V : Type} (d : gmap value V) (k : value) : result V :=
  match d !! k with Some v => Ok v | None => Raise KeyError end.

Definition dict_setitem {V : Type} (d : gmap value V) (k : value) (v : V) : gmap value V :=
  <[k := v]> d.

(** ** The machine instance *)

Record LEG : Type := mkLEG {
  program : list value;
  input : option (list Z);
  output : option (list Z);
  ram : list Z;
  stack : list Z;
  registers : gmap value value;
  _jumping : bool
}.

Definition with_registers (self : LEG) (r : gmap value value) : LEG :=
  mkLEG (program self) (input self) (output self) (ram self) (stack self) r (_jumping self).

Definition with_jumping (self : LEG) (j : bool) : LEG :=
  mkLEG (program self) (input self) (output self) (ram self) (stack self) (registers self) j.

(** [LEG.__init__], without the dispatch table, which is the constant
    [_opcodes] below. *)
Definition LEG_init (program : list value) (input output : option (list Z)) : LEG :=
  {| program := program;
     input := input;
     output := output;
     ram := replicate 255 0;
     stack := replicate 255 0;
     registers :=
       <[VAddress REG0 := VInt 0]> (<[VAddress REG1 := VInt 0]> (<[VAddress REG2 := VInt 0]>
       (<[VAddress REG3 := VInt 0]> (<[VAddress REG4 := VInt 0]> (<[VAddress REG5 := VInt 0]>
       (<[VAddress PC := VInt 0]> ∅))))));
     _jumping := false |}.

(** ** Methods as computations

    A method takes the instance and returns its result or the exception it
    raised, together with the instance as the method left it: an exception
    does not undo the assignments made before it. *)
Definition M (A : Type) : Type := LEG → result A * LEG.

Definition ret {A : Type} (a : A) : M A := λ self, (Ok a, self).

Definition bind {A B : Type} (m : M A) (k : A → M B) : M B :=
  λ self,
    match m self with
    | (Ok a, self') => k a self'
    | (Raise e, self') => (Raise e, self')
    end.

Definition lift {A : Type} (r : result A) : M A := λ self, (r, self).

Definition gets {A : Type} (f : LEG → A) : M A := λ self, (Ok (f self), self).

Definition modify (f : LEG → LEG) : M unit := λ self, (Ok tt, f self).

Notation "'do' x <- m ; k" := (bind m (λ x, k))
  (at level 10, x name, m at level 100, k at level 200, only parsing).
Notation "'do' ' p <- m ; k" := (bind m (λ x, match x with p => k end))
  (at level 10, p pattern, m at level 100, k at level 200, only parsing).
Notation "'run' m ; k" := (bind m (λ _, k))
  (at level 10, m at level 100, k at level 200, only parsing).

(** [self.registers[k] = v] and [self._jumping = b] *)
Definition set_register (k v : value) : M unit :=
  modify (λ self, with_registers self (dict_setitem (registers self) k v)).

Definition set_jumping (b : bool) : M unit :=
  modify (λ self, with_jumping self b).

(** *** Helpers *)

Definition _get (arg : value) : M value :=
  do regs <- gets registers;
  if dict_contains regs arg then
    do reg <- lift (dict_getitem regs arg);
    ret reg
  else if py_eq arg (VAddress IO) then
    ret (VInt 0)
  else
    ret (VInt 0).

Definition _set (arg val : value) : M value :=
  do regs <- gets registers;
  run (if dict_contains regs arg then set_register arg val else ret tt);
  run (if py_eq arg (VAddress IO) then ret tt else ret tt);
  ret (VInt 0).

(** *** ALU *)

Definition _op_add (arg1_reg arg2_reg res_reg : value) : M unit :=
  do a <- _get arg1_reg;
  do b <- _get arg2_reg;
  do sum <- lift (py_add a b);
  do res <- lift (py_mod sum (VInt 255));
  run _set res_reg res;
  ret tt.

Definition _op_addi (arg1_reg arg2_im res_reg : value) : M unit :=
  do a <- _get arg1_reg;
  let b := arg2_im in
  do sum <- lift (py_add a b);
  do res <- lift (py_mod sum (VInt 255));
  run _set res_reg res;
  ret tt.

Definition _op_and (arg1_reg arg2_reg res_reg : value) : M unit :=
  do a <- _get arg1_reg;
  do b <- _get arg2_reg;
  do res <- lift (py_and a b);
  run _set res_reg res;
  ret tt.

Definition _op_andi (arg1_reg arg2_im res_reg : value) : M unit :=
  do a <- _get arg1_reg;
  let b := arg2_im in
  do res <- lift (py_and a b);
  run _set res_reg res;
  ret tt.

(** *** Jumps *)

Definition _op_ifeq (arg1_reg arg2_reg jump_addr : value) : M unit :=
  do a <- _get arg1_reg;
  do b <- _get arg2_reg;
  if py_eq a b then
    run set_register (VAddress PC) jump_addr;
    set_jumping true
  else ret tt.

(** *** Dispatch

    [self._opcodes]: the handler registered for each opcode.  [IFNE], [LOAD]
    and [SAVE] have no entry. *)
Definition _opcodes : gmap value (value → value → value → M unit) :=
  <[VOpcode ADD := _op_add]> (<[VOpcode ADDI := _op_addi]> (<[VOpcode AND := _op_and]>
  (<[VOpcode ANDI := _op_andi]> (<[VOpcode IFEQ := _op_ifeq]> ∅)))).

Definition _apply (opcode arg1 arg2 arg3 : value) : M unit :=
  if dict_contains _opcodes opcode then
    do op <- lift (dict_getitem _opcodes opcode);
    op arg1 arg2 arg3
  else ret tt.

(** *** Clock *)

Definition _read_program : M (value * value * value * value) :=
  do regs <- gets registers;
  do prog <- gets program;
  do pc <- lift (dict_getitem regs (VAddress PC));
  do opcode <- lift (list_getitem prog pc);
  do pc1 <- lift (py_add pc (VInt 1));
  do arg1 <- lift (list_getitem prog pc1);
  do pc2 <- lift (py_add pc (VInt 2));
  do arg2 <- lift (list_getitem prog pc2);
  do pc3 <- lift (py_add pc (VInt 3));
  do arg3 <- lift (list_getitem prog pc3);
  ret (opcode, arg1, arg2, arg3).

Definition tick : M unit :=
  do '(opcode, arg1, arg2, arg3) <- _read_program;
  run _apply opcode arg1 arg2 arg3;
  do jumping <- gets _jumping;
  if negb jumping then
    do regs <- gets registers;
    do pc <- lift (dict_getitem regs (VAddress PC));
    do sum <- lift (py_add pc (VInt 4));
    do res <- lift (py_mod sum (VInt 255));
    set_register (VAddress PC) res
  else
    set_jumping false.

(** [for i in range(n): leg.tick()] *)
Fixpoint ticks (n : nat) : M unit :=
  match n with
  | O => ret tt
  | S n' => run tick; ticks n'
  end.

(** The program of the [__main__] block. *)
Definition main_program : list value :=
  [ VOpcode ADDI; VAddress REG0; VInt 0x10101010; VAddress REG0;
    VOpcode ADDI; VAddress REG1; VInt 10; VAddress REG1;
    VOpcode AND; VAddress REG0; VAddress REG1; VAddress REG2;
    VOpcode IFEQ; VAddress REG2; VAddress REG2; VInt 0x00 ]
  ++ replicate 60 (VInt 0).

(** ** Vocabulary of the statements *)

(** The value an operand denotes: the content of the register it names, and
    [0] for anything that is not a key of the register dictionary. *)
Definition value_of (self : LEG) (arg : value) : value :=
  match registers self !! arg with Some v => v | None => VInt 0 end.

(** The effect of [_set]: a write to a key of the dictionary, nothing else. *)
Definition write (arg val : value) (self : LEG) : LEG :=
  match registers self !! arg with
  | Some _ => with_registers self (<[arg := val]> (registers self))
  | None => self
  end.

(** The keys of [self.registers]: the six general-purpose registers and the
    program counter; [IO] is not one of them. *)
Definition register_keys : gset value :=
  {[ VAddress REG0; VAddress REG1; VAddress REG2; VAddress REG3;
     VAddress REG4; VAddress REG5; VAddress PC ]}.

(** A machine with a few registers preset, for concrete runs. *)
Definition preset (regs : list (Addresses * Z)) (prog : list value) : LEG :=
  foldr (λ '(r, z) self, write (VAddress r) (VInt z) self) (LEG_init prog None None) regs.

(** A stored value is an int in [0, 255). *)
Definition in_range (v : value) : bool :=
  match v with
  | VInt z => (0 <=? z) && (z <? 255)
  | _ => false
  end.

Definition reg_inv (self : LEG) : Prop :=
  map_Forall (λ _ v, in_range v = true) (registers self).

(** The handler writes [result] to the program counter and leaves the jump
    flag as it was; the tick then leaves (result + 4) mod 255 there. *)
Definition writes_pc_then_advances (handler : M unit) (self : LEG) (result : Z) : Prop :=
  handler self =
    (Ok tt, with_registers self (<[VAddress PC := VInt result]> (registers self))) ∧
  tick self =
    (Ok tt, with_registers self
              (<[VAddress PC := VInt ((result + 4) mod 255)]> (registers self))) ∧
  _jumping (snd (handler self)) = false ∧
  registers (snd (tick self)) !! VAddress PC = Some (VInt ((result + 4) mod 255)).

(** The state of the machine between two ticks: the register dictionary
    has the keys given to it by [__init__] and the jump flag is false. *)
Definition between_ticks (self : LEG) : Prop :=
  dom (registers self) = register_keys ∧ _jumping self = false.

(** One IFEQ instruction whose literal target is the byte 255. *)
Definition jump_to_255 : LEG :=
  LEG_init [VOpcode IFEQ; VAddress REG0; VAddress REG0; VInt 255] None None.

(** A 255-entry program of zeros, the program counter at 252. *)
Definition near_end_255 : LEG := preset [(PC, 252)] (replicate 255 (VInt 0)).

(** A plain [int], as opposed to an enumeration member. *)
Definition is_int (v : value) : bool :=
  match v with VInt _ => true | _ => false end.

(** Every register holds a plain [int]. *)
Definition int_registers (self : LEG) : Prop :=
  map_Forall (λ _ v, is_int v = true) (registers self).

(** What [_apply] can do to the machine. *)
Inductive apply_outcome (self : LEG) (arg3 : value) : result unit * LEG → Prop :=
  | apply_nothing : apply_outcome self arg3 (Ok tt, self)
  | apply_raise : apply_outcome self arg3 (Raise TypeError, self)
  | apply_write (z : Z) : apply_outcome self arg3 (Ok tt, write arg3 (VInt z) self)
  | apply_jump :
      apply_outcome self arg3
        (Ok tt, with_jumping
                  (with_registers self (<[VAddress PC := arg3]> (registers self))) true).

(** The operands on which the handler of [opcode] applies [+] or [&] are
    plain ints: both operand values for ADD and AND, the first operand value
    and the immediate for ADDI and ANDI.  Other opcodes apply neither. *)
Definition operands_int (self : LEG) (opcode arg1 arg2 : value) : bool :=
  match opcode with
  | VOpcode ADD | VOpcode AND => is_int (value_of self arg1) && is_int (value_of self arg2)
  | VOpcode ADDI | VOpcode ANDI => is_int (value_of self arg1) && is_int arg2
  | _ => true
  end.

(** The last four lines of [tick], after the handler has run. *)
Definition advance : M unit :=
  do jumping <- gets _jumping;
  if negb jumping then
    do regs <- gets registers;
    do pc <- lift (dict_getitem regs (VAddress PC));
    do sum <- lift (py_add pc (VInt 4));
    do res <- lift (py_mod sum (VInt 255));
    set_register (VAddress PC) res
  else
    set_jumping false.

(** Two machines with the same program, streams, RAM and stack. *)
Definition same_memory (self self' : LEG) : Prop :=
  program self' = program self ∧ input self' = input self ∧
  output self' = output self ∧ ram self' = ram self ∧ stack self' = stack self.

(** No slot of the program is a key of the dispatch table: a program of
    plain ints, of address members, of IFNE, LOAD and SAVE. *)
Definition inert_program (prog : list value) : Prop :=
  Forall (λ v, dict_contains _opcodes v = false) prog.

(** The machine of the [__main__] block with a, b and c in REG0, REG1 and
    REG2, the other registers and the program counter at 0. *)
Definition main_machine (a b c : Z) : LEG :=
  mkLEG main_program None None (replicate 255 0) (replicate 255 0)
    (<[VAddress REG0 := VInt a]> (<[VAddress REG1 := VInt b]> (<[VAddress REG2 := VInt c]>
     (registers (LEG_init main_program None None))))) false.

(** The machine of the [__main__] block after k rounds of its loop. *)
Definition main_round (k : Z) : LEG :=
  main_machine ((64 * k) mod 255) ((10 * k) mod 255)
    (Z.land ((64 * k) mod 255) ((10 * k) mod 255)).

(** The fetched instruction is an IFEQ whose two operand values are equal,
    the one case in which a handler sets the jump flag. *)
Definition takes_jump (self : LEG) (opcode arg1 arg2 : value) : bool :=
  match opcode with
  | VOpcode IFEQ => bool_decide (value_of self arg1 = value_of self arg2)
  | _ => false
  end.

(** The fetched instruction is an ADD, ADDI, AND or ANDI whose destination
    operand is the program counter. *)
Definition writes_pc (opcode arg3 : value) : bool :=
  match opcode with
  | VOpcode ADD | VOpcode ADDI | VOpcode AND | VOpcode ANDI =>
      bool_decide (arg3 = VAddress PC)
  | _ => false
  end.

(** ** Running the helpers *)

Lemma _get_run (arg : value) (self : LEG) : _get arg self = (Ok (value_of self arg), self).
Proof.
  unfold _get, bind, gets, lift, ret, dict_contains, dict_getitem, value_of.
  destruct (registers self !! arg) as [v|]; [reflexivity|].
  by destruct (py_eq arg (VAddress IO)).
Qed.

Lemma _set_run (arg val : value) (self : LEG) : _set arg val self = (Ok (VInt 0), write arg val self).
Proof.
  unfold _set, bind, gets, ret, set_register, modify, dict_contains, dict_setitem, write.
  destruct (registers self !! arg) as [v|]; by destruct (py_eq arg (VAddress IO)).
Qed.

Lemma write_lookup_eq (arg val : value) (self : LEG) :
  is_Some (registers self !! arg) → registers (write arg val self) !! arg = Some val.
Proof.
  intros [v Hv]. unfold write. rewrite Hv. cbn. apply lookup_insert_eq.
Qed.

Lemma write_lookup_ne (arg val r : value) (self : LEG) :
  r ≠ arg → registers (write arg val self) !! r = registers self !! r.
Proof.
  intros Hne. unfold write. destruct (registers self !! arg); [|reflexivity].
  cbn. by apply lookup_insert_ne.
Qed.

Lemma write_jumping (arg val : value) (self : LEG) : _jumping (write arg val self) = _jumping self.
Proof. unfold write. by destruct (registers self !! arg). Qed.

Lemma write_absent (arg val : value) (self : LEG) :
  registers self !! arg = None → write arg val self = self.
Proof. intros H. unfold write. by rewrite H. Qed.

Arguments _get : simpl never.
Arguments _set : simpl never.

(** Closed forms of the four ALU handlers on int operands. *)
Lemma _op_add_run (self : LEG) (src1 src2 dest : value) (a b : Z) :
  value_of self src1 = VInt a → value_of self src2 = VInt b →
  _op_add src1 src2 dest self = (Ok tt, write dest (VInt ((a + b) mod 255)) self).
Proof.
  intros Ha Hb. unfold _op_add, bind. rewrite !_get_run, Ha, Hb. cbn.
  by rewrite _set_run.
Qed.

Lemma _op_addi_run (self : LEG) (src dest : value) (a b : Z) :
  value_of self src = VInt a →
  _op_addi src (VInt b) dest self = (Ok tt, write dest (VInt ((a + b) mod 255)) self).
Proof.
  intros Ha. unfold _op_addi, bind. rewrite !_get_run, Ha. cbn.
  by rewrite _set_run.
Qed.

Lemma _op_and_run (self : LEG) (src1 src2 dest : value) (a b : Z) :
  value_of self src1 = VInt a → value_of self src2 = VInt b →
  _op_and src1 src2 dest self = (Ok tt, write dest (VInt (Z.land a b)) self).
Proof.
  intros Ha Hb. unfold _op_and, bind. rewrite !_get_run, Ha, Hb. cbn.
  by rewrite _set_run.
Qed.

Lemma _op_andi_run (self : LEG) (src dest : value) (a b : Z) :
  value_of self src = VInt a →
  _op_andi src (VInt b) dest self = (Ok tt, write dest (VInt (Z.land a b)) self).
Proof.
  intros Ha. unfold _op_andi, bind. rewrite !_get_run, Ha. cbn.
  by rewrite _set_run.
Qed.

Lemma value_of_get (self : LEG) (arg v : value) :
  fst (_get arg self) = Ok v → value_of self arg = v.
Proof. rewrite _get_run. cbn. congruence. Qed.

(** ** Properties of the helpers and of the ALU *)

Lemma dict_contains_lookup {V : Type} (d : gmap value V) (k : value) :
  dict_contains d k = true ↔ is_Some (d !! k).
Proof.
  unfold dict_contains. rewrite <- not_eq_None_Some.
  destruct (d !! k); split; congruence.
Qed.

(** C1: register-register ADD leaves (value(src1) + value(src2)) mod 255 in
    the destination register and changes no other register. *)
Theorem op_add_correct (self : LEG) (src1 src2 dest : value) (a b : Z) :
  fst (_get src1 self) = Ok (VInt a) →
  fst (_get src2 self) = Ok (VInt b) →
  ∃ self',
    _op_add src1 src2 dest self = (Ok tt, self') ∧
    (dict_contains (registers self) dest = true →
       registers self' !! dest = Some (VInt ((a + b) mod 255)) ∧
       fst (_get dest self') = Ok (VInt ((a + b) mod 255))) ∧
    (∀ r, r ≠ dest → registers self' !! r = registers self !! r).
Proof.
  intros Ha%value_of_get Hb%value_of_get.
  eexists. split; [by apply _op_add_run|]. split.
  - intros Hd%dict_contains_lookup.
    pose proof (write_lookup_eq dest (VInt ((a + b) mod 255)) self Hd) as Hw.
    split; [done|]. rewrite _get_run. unfold value_of. by rewrite Hw.
  - intros r Hr. by apply write_lookup_ne.
Qed.

Lemma op_add_correct_witness :
  let self := preset [(REG0, 200); (REG1, 100)] [] in
  ∃ self',
    _op_add (VAddress REG0) (VAddress REG1) (VAddress REG2) self = (Ok tt, self') ∧
    (dict_contains (registers self) (VAddress REG2) = true →
       registers self' !! VAddress REG2 = Some (VInt ((200 + 100) mod 255)) ∧
       fst (_get (VAddress REG2) self') = Ok (VInt ((200 + 100) mod 255))) ∧
    (∀ r, r ≠ VAddress REG2 → registers self' !! r = registers self !! r).
Proof.
  intros self.
  apply (op_add_correct self (VAddress REG0) (VAddress REG1) (VAddress REG2) 200 100);
    vm_compute; reflexivity.
Defined.

(** C3: register-immediate ADDI leaves (value(src) + immediate) mod 255 in the
    destination register; 250 + 10 gives 5, which is 260 mod 255, and not
    260 mod 256. *)
Theorem op_addi_correct (self : LEG) (src dest : value) (a imm : Z) :
  fst (_get src self) = Ok (VInt a) →
  dict_contains (registers self) dest = true →
  ∃ self',
    _op_addi src (VInt imm) dest self = (Ok tt, self') ∧
    registers self' !! dest = Some (VInt ((a + imm) mod 255)) ∧
    (a = 250 → imm = 10 →
       registers self' !! dest = Some (VInt 5) ∧ VInt 5 ≠ VInt (260 mod 256)).
Proof.
  intros Ha%value_of_get Hd%dict_contains_lookup.
  eexists. split; [by apply _op_addi_run|].
  pose proof (write_lookup_eq dest (VInt ((a + imm) mod 255)) self Hd) as Hw.
  split; [done|]. intros -> ->. split; [exact Hw|]. by vm_compute.
Qed.

Lemma op_addi_correct_witness :
  let self := preset [(REG0, 250)] [] in
  ∃ self',
    _op_addi (VAddress REG0) (VInt 10) (VAddress REG0) self = (Ok tt, self') ∧
    registers self' !! VAddress REG0 = Some (VInt ((250 + 10) mod 255)) ∧
    (250 = 250 → 10 = 10 →
       registers self' !! VAddress REG0 = Some (VInt 5) ∧ VInt 5 ≠ VInt (260 mod 256)).
Proof.
  intros self.
  apply (op_addi_correct self (VAddress REG0) (VAddress REG0) 250 10);
    vm_compute; reflexivity.
Defined.

(** C4: AND and ANDI leave exactly the bitwise and of the two operand values
    in the destination register, with no reduction, and every bit of the
    result is a bit of both operands. *)
Theorem op_and_andi_correct (self : LEG) (src1 src2 dest : value) (a b imm : Z) :
  fst (_get src1 self) = Ok (VInt a) →
  fst (_get src2 self) = Ok (VInt b) →
  dict_contains (registers self) dest = true →
  (∃ self',
     _op_and src1 src2 dest self = (Ok tt, self') ∧
     registers self' !! dest = Some (VInt (Z.land a b)) ∧
     (∀ r, r ≠ dest → registers self' !! r = registers self !! r)) ∧
  (∃ self',
     _op_andi src1 (VInt imm) dest self = (Ok tt, self') ∧
     registers self' !! dest = Some (VInt (Z.land a imm)) ∧
     (∀ r, r ≠ dest → registers self' !! r = registers self !! r)) ∧
  (∀ x y i, Z.testbit (Z.land x y) i = true → Z.testbit x i = true ∧ Z.testbit y i = true).
Proof.
  intros Ha%value_of_get Hb%value_of_get Hd%dict_contains_lookup.
  split; [|split].
  - eexists. split; [by apply _op_and_run|].
    split; [by apply write_lookup_eq|]. intros r Hr. by apply write_lookup_ne.
  - eexists. split; [by apply _op_andi_run|].
    split; [by apply write_lookup_eq|]. intros r Hr. by apply write_lookup_ne.
  - intros x y i. rewrite Z.land_spec. apply andb_true_iff.
Qed.

Lemma op_and_andi_correct_witness :
  let self := preset [(REG0, 170); (REG1, 15)] [] in
  registers (snd (_op_and (VAddress REG0) (VAddress REG1) (VAddress REG2) self))
    !! VAddress REG2 = Some (VInt 10) ∧
  registers (snd (_op_andi (VAddress REG0) (VInt 15) (VAddress REG2) self))
    !! VAddress REG2 = Some (VInt 10).
Proof.
  intros self.
  destruct (op_and_andi_correct self (VAddress REG0) (VAddress REG1) (VAddress REG2) 170 15 15)
    as [[s1 [E1 [L1 _]]] [[s2 [E2 [L2 _]]] _]]; [vm_compute; reflexivity ..|].
  rewrite E1, E2. split; [exact L1 | exact L2].
Defined.

(** ** Dispatch and the clock *)

Lemma _opcodes_int (z : Z) : _opcodes !! VInt z = None.
Proof. unfold _opcodes. rewrite !lookup_insert_ne by done. apply lookup_empty. Qed.

Lemma _opcodes_address (a : Addresses) : _opcodes !! VAddress a = None.
Proof. unfold _opcodes. rewrite !lookup_insert_ne by done. apply lookup_empty. Qed.

Lemma _opcodes_opcode (o : Opcodes) :
  _opcodes !! VOpcode o =
    match o with
    | ADD => Some _op_add | ADDI => Some _op_addi
    | AND => Some _op_and | ANDI => Some _op_andi
    | IFEQ => Some _op_ifeq
    | IFNE | LOAD | SAVE => None
    end.
Proof.
  unfold _opcodes.
  destruct o;
    repeat first [ apply lookup_insert_eq | apply lookup_empty
                 | rewrite lookup_insert_ne by done ].
Qed.

Lemma _apply_handler (opcode arg1 arg2 arg3 : value) (op : value → value → value → M unit) (self : LEG) :
  _opcodes !! opcode = Some op → _apply opcode arg1 arg2 arg3 self = op arg1 arg2 arg3 self.
Proof. intros H. unfold _apply, dict_contains, dict_getitem, bind, lift. by rewrite H. Qed.

Lemma _apply_no_handler (opcode arg1 arg2 arg3 : value) (self : LEG) :
  dict_contains _opcodes opcode = false → _apply opcode arg1 arg2 arg3 self = (Ok tt, self).
Proof. intros H. unfold _apply. by rewrite H. Qed.

Lemma state_read_program (self : LEG) : snd (_read_program self) = self.
Proof.
  unfold _read_program, bind, gets, lift, ret.
  repeat match goal with
         | |- context [match ?r with Ok _ => _ | Raise _ => _ end] => destruct r
         end; reflexivity.
Qed.

Lemma fetched_read_program (self : LEG) (i : value * value * value * value) :
  fst (_read_program self) = Ok i → _read_program self = (Ok i, self).
Proof.
  intros H. pose proof (state_read_program self) as Hs.
  destruct (_read_program self) as [r s]. cbn in *. by subst.
Qed.

(** The tail of [tick] when the handler left the jump flag unset. *)
Lemma tick_sequential (self s1 : LEG) (opcode arg1 arg2 arg3 : value) (pc1 : Z) :
  fst (_read_program self) = Ok (opcode, arg1, arg2, arg3) →
  _apply opcode arg1 arg2 arg3 self = (Ok tt, s1) →
  _jumping s1 = false →
  registers s1 !! VAddress PC = Some (VInt pc1) →
  tick self =
    (Ok tt, with_registers s1 (<[VAddress PC := VInt ((pc1 + 4) mod 255)]> (registers s1))).
Proof.
  intros Hf%fetched_read_program Ha Hj Hpc.
  unfold tick, bind. rewrite Hf, Ha. unfold gets. rewrite Hj. cbn.
  unfold dict_getitem. by rewrite Hpc.
Qed.

(** The tail of [tick] when the handler set the jump flag. *)
Lemma tick_jumped (self s1 : LEG) (opcode arg1 arg2 arg3 : value) :
  fst (_read_program self) = Ok (opcode, arg1, arg2, arg3) →
  _apply opcode arg1 arg2 arg3 self = (Ok tt, s1) →
  _jumping s1 = true →
  tick self = (Ok tt, with_jumping s1 false).
Proof.
  intros Hf%fetched_read_program Ha Hj.
  unfold tick, bind. rewrite Hf, Ha. unfold gets. by rewrite Hj.
Qed.

Lemma register_keys_spec (v : value) :
  v ∈ register_keys ↔ ∃ a, v = VAddress a ∧ a ≠ IO.
Proof.
  unfold register_keys. rewrite !elem_of_union, !elem_of_singleton. split.
  - intros H. destruct_or!; subst; eexists; split; done.
  - intros [a [-> Ha]]. destruct a; tauto.
Qed.

(** C6: on an operand that is not a key of the register dictionary (the IO
    address code, a plain int, an opcode member) [_get] returns 0 and [_set]
    changes nothing; neither raises, on any operand. *)
Theorem get_set_unrecognized (self : LEG) (arg val : value) :
  dom (registers self) = register_keys →
  ((VAddress IO ∉ register_keys) ∧
   (∀ z, VInt z ∉ register_keys) ∧ (∀ o, VOpcode o ∉ register_keys)) ∧
  (arg ∉ register_keys →
     _get arg self = (Ok (VInt 0), self) ∧ _set arg val self = (Ok (VInt 0), self)) ∧
  (∃ v, _get arg self = (Ok v, self)) ∧
  (∃ self', _set arg val self = (Ok (VInt 0), self')).
Proof.
  intros Hdom. split; [|split; [|split]].
  - repeat split; intros; rewrite register_keys_spec; intros [a [E Ha]]; congruence.
  - intros Harg. rewrite <- Hdom in Harg. apply not_elem_of_dom in Harg.
    rewrite _get_run, _set_run. unfold value_of. rewrite Harg.
    by rewrite write_absent.
  - eexists. apply _get_run.
  - eexists. apply _set_run.
Qed.

Lemma get_set_unrecognized_witness :
  let self := preset [(REG3, 9)] [] in
  _get (VAddress IO) self = (Ok (VInt 0), self) ∧
  _set (VAddress IO) (VInt 77) self = (Ok (VInt 0), self).
Proof.
  intros self.
  destruct (get_set_unrecognized self (VAddress IO) (VInt 77)) as [[Hio _] [H _]].
  - vm_compute. reflexivity.
  - exact (H Hio).
Defined.

(** C5: an instruction whose opcode has no registered handler (a plain int,
    an address member, IFNE, LOAD, SAVE) is dispatched as a no-op, and the
    tick changes no register but the program counter, which becomes
    (PC + 4) mod 255. *)
Theorem tick_unhandled_opcode (self : LEG) (opcode arg1 arg2 arg3 : value) (pc : Z) :
  dict_contains _opcodes opcode = false →
  fst (_read_program self) = Ok (opcode, arg1, arg2, arg3) →
  registers self !! VAddress PC = Some (VInt pc) →
  _jumping self = false →
  ((∀ z, dict_contains _opcodes (VInt z) = false) ∧
   (∀ a, dict_contains _opcodes (VAddress a) = false) ∧
   dict_contains _opcodes (VOpcode LOAD) = false ∧
   dict_contains _opcodes (VOpcode SAVE) = false ∧
   dict_contains _opcodes (VOpcode IFNE) = false) ∧
  _apply opcode arg1 arg2 arg3 self = (Ok tt, self) ∧
  ∃ self',
    tick self = (Ok tt, self') ∧
    registers self' !! VAddress PC = Some (VInt ((pc + 4) mod 255)) ∧
    (∀ r, r ≠ VAddress PC → registers self' !! r = registers self !! r).
Proof.
  intros Hop Hf Hpc Hj. split; [|split].
  - unfold dict_contains.
    repeat split; intros; by rewrite ?_opcodes_int, ?_opcodes_address, ?_opcodes_opcode.
  - by apply _apply_no_handler.
  - eexists. split.
    + eapply tick_sequential; [exact Hf | by apply _apply_no_handler | exact Hj | exact Hpc].
    + cbn. split; [apply lookup_insert_eq|].
      intros r Hr. by apply lookup_insert_ne.
Qed.

Lemma tick_unhandled_opcode_witness :
  let self := preset [(REG1, 3); (PC, 4)]
                [VOpcode ADDI; VAddress REG0; VInt 5; VAddress REG0;
                 VOpcode LOAD; VAddress REG1; VInt 0; VAddress REG2] in
  ∃ self',
    tick self = (Ok tt, self') ∧
    registers self' !! VAddress PC = Some (VInt ((4 + 4) mod 255)) ∧
    (∀ r, r ≠ VAddress PC → registers self' !! r = registers self !! r).
Proof.
  intros self.
  apply (tick_unhandled_opcode self (VOpcode LOAD) (VAddress REG1) (VInt 0) (VAddress REG2) 4);
    vm_compute; reflexivity.
Defined.

(** C9: when a tick completes, the jump flag is false, whether or not the
    instruction jumped and whatever the flag was before. *)
Theorem tick_resets_jumping (self self' : LEG) :
  tick self = (Ok tt, self') → _jumping self' = false.
Proof.
  unfold tick, bind.
  destruct (_read_program self) as [[[[[opcode arg1] arg2] arg3]|e] s0]; [|discriminate].
  destruct (_apply opcode arg1 arg2 arg3 s0) as [[[]|e] s1]; [|discriminate].
  unfold gets. destruct (_jumping s1) eqn:Hj; cbn.
  - intros [= <-]. reflexivity.
  - unfold lift, dict_getitem.
    destruct (registers s1 !! VAddress PC) as [pc|]; [|discriminate].
    destruct (py_add pc (VInt 4)) as [sum|]; [|discriminate].
    destruct (py_mod sum (VInt 255)) as [res|]; [|discriminate].
    intros [= <-]. exact Hj.
Qed.

Lemma tick_resets_jumping_witness :
  let self := preset [(REG2, 7); (REG3, 7); (PC, 12)] main_program in
  _jumping (snd (tick self)) = false.
Proof.
  intros self.
  apply (tick_resets_jumping self (snd (tick self))).
  vm_compute. reflexivity.
Defined.

(** C2: a tick on an IFEQ instruction leaves the literal target in the
    program counter when the values of its two operands (the content of the
    register an operand names, 0 for anything else) are equal, with no
    sequential advance; when they differ, the handler changes nothing and the
    tick leaves (PC + 4) mod 255 in the program counter. *)
Theorem tick_ifeq (self : LEG) (A B target : value) (pc : Z) :
  fst (_read_program self) = Ok (VOpcode IFEQ, A, B, target) →
  registers self !! VAddress PC = Some (VInt pc) →
  _jumping self = false →
  (value_of self A = value_of self B →
     tick self =
       (Ok tt, with_registers self (<[VAddress PC := target]> (registers self))) ∧
     registers (snd (tick self)) !! VAddress PC = Some target) ∧
  (value_of self A ≠ value_of self B →
     _op_ifeq A B target self = (Ok tt, self) ∧
     tick self =
       (Ok tt, with_registers self
                 (<[VAddress PC := VInt ((pc + 4) mod 255)]> (registers self))) ∧
     registers (snd (tick self)) !! VAddress PC = Some (VInt ((pc + 4) mod 255))).
Proof.
  intros Hf Hpc Hj.
  assert (Hop : ∀ s, _apply (VOpcode IFEQ) A B target s = _op_ifeq A B target s).
  { intros s. apply _apply_handler. by rewrite _opcodes_opcode. }
  split; intros Heq.
  - assert (Ht : tick self =
        (Ok tt, with_registers self (<[VAddress PC := target]> (registers self)))).
    { erewrite tick_jumped; [| exact Hf | rewrite Hop | ].
      - instantiate (1 := with_jumping
          (with_registers self (<[VAddress PC := target]> (registers self))) true).
        unfold with_jumping, with_registers. cbn. by rewrite Hj.
      - unfold _op_ifeq, bind. rewrite !_get_run. unfold py_eq.
        by rewrite (bool_decide_eq_true_2 _ Heq).
      - reflexivity. }
    split; [exact Ht|]. rewrite Ht. cbn. apply lookup_insert_eq.
  - assert (Hh : _op_ifeq A B target self = (Ok tt, self)).
    { unfold _op_ifeq, bind. rewrite !_get_run. unfold py_eq.
      by rewrite (bool_decide_eq_false_2 _ Heq). }
    assert (Ht : tick self = (Ok tt, with_registers self
        (<[VAddress PC := VInt ((pc + 4) mod 255)]> (registers self)))).
    { eapply tick_sequential; [exact Hf | by rewrite Hop | exact Hj | exact Hpc]. }
    split; [exact Hh|]. split; [exact Ht|]. rewrite Ht. cbn. apply lookup_insert_eq.
Qed.

Lemma tick_ifeq_witness :
  let prog := replicate 12 (VInt 0) ++
              [VOpcode IFEQ; VAddress REG2; VAddress REG3; VInt 0x00] in
  let equal := preset [(REG2, 7); (REG3, 7); (PC, 12)] prog in
  let differ := preset [(REG2, 7); (REG3, 8); (PC, 12)] prog in
  registers (snd (tick equal)) !! VAddress PC = Some (VInt 0) ∧
  registers (snd (tick differ)) !! VAddress PC = Some (VInt 16) ∧
  _op_ifeq (VAddress REG2) (VAddress REG3) (VInt 0) differ = (Ok tt, differ).
Proof.
  intros prog equal differ.
  destruct (tick_ifeq equal (VAddress REG2) (VAddress REG3) (VInt 0) 12)
    as [Htaken _]; [vm_compute; reflexivity ..|].
  destruct (tick_ifeq differ (VAddress REG2) (VAddress REG3) (VInt 0) 12)
    as [_ Hnot]; [vm_compute; reflexivity ..|].
  split; [|split].
  - apply Htaken. vm_compute. reflexivity.
  - apply Hnot. vm_compute. discriminate.
  - apply Hnot. vm_compute. discriminate.
Defined.

Section alu_into_pc.
Variable self : LEG.
Variables arg1 arg2 : value.
Variables a b pc : Z.
Hypothesis Hpc : registers self !! VAddress PC = Some (VInt pc).
Hypothesis Hjumping : _jumping self = false.
Hypothesis Harg1 : fst (_get arg1 self) = Ok (VInt a).

Let dest := VAddress PC.

Lemma write_pc (result : Z) :
  write dest (VInt result) self =
    with_registers self (<[dest := VInt result]> (registers self)).
Proof using Hpc. unfold write, dest. by rewrite Hpc. Qed.

Lemma alu_tick (opcode : Opcodes) (op : value → value → value → M unit) (x : value) (result : Z) :
  _opcodes !! VOpcode opcode = Some op →
  op arg1 x dest self = (Ok tt, write dest (VInt result) self) →
  fst (_read_program self) = Ok (VOpcode opcode, arg1, x, dest) →
  writes_pc_then_advances (op arg1 x dest) self result.
Proof using Hpc Hjumping.
  intros Hop Hrun Hf. rewrite write_pc in Hrun.
  assert (Ht : tick self = (Ok tt, with_registers self
      (<[VAddress PC := VInt ((result + 4) mod 255)]> (registers self)))).
  { erewrite tick_sequential;
      [| exact Hf | by erewrite _apply_handler | exact Hjumping | apply lookup_insert_eq ].
    cbn. fold dest. by rewrite insert_insert_eq. }
  unfold writes_pc_then_advances. rewrite Hrun, Ht. cbn.
  repeat split; [exact Hjumping | apply lookup_insert_eq].
Qed.

(** C10: an ADD, ADDI, AND or ANDI whose destination operand is the program
    counter writes its result there without setting the jump flag, and the
    tick leaves (result + 4) mod 255 in the program counter. *)
Theorem tick_alu_into_pc :
  (fst (_read_program self) = Ok (VOpcode ADD, arg1, arg2, VAddress PC) →
   fst (_get arg2 self) = Ok (VInt b) →
   writes_pc_then_advances (_op_add arg1 arg2 (VAddress PC)) self ((a + b) mod 255)) ∧
  (fst (_read_program self) = Ok (VOpcode ADDI, arg1, VInt b, VAddress PC) →
   writes_pc_then_advances (_op_addi arg1 (VInt b) (VAddress PC)) self ((a + b) mod 255)) ∧
  (fst (_read_program self) = Ok (VOpcode AND, arg1, arg2, VAddress PC) →
   fst (_get arg2 self) = Ok (VInt b) →
   writes_pc_then_advances (_op_and arg1 arg2 (VAddress PC)) self (Z.land a b)) ∧
  (fst (_read_program self) = Ok (VOpcode ANDI, arg1, VInt b, VAddress PC) →
   writes_pc_then_advances (_op_andi arg1 (VInt b) (VAddress PC)) self (Z.land a b)).
Proof using Hpc Hjumping Harg1.
  apply value_of_get in Harg1 as Ha.
  split; [|split; [|split]].
  - intros Hf Hb%value_of_get.
    apply (alu_tick ADD); [by rewrite _opcodes_opcode | by apply _op_add_run | exact Hf].
  - intros Hf.
    apply (alu_tick ADDI); [by rewrite _opcodes_opcode | by apply _op_addi_run | exact Hf].
  - intros Hf Hb%value_of_get.
    apply (alu_tick AND); [by rewrite _opcodes_opcode | by apply _op_and_run | exact Hf].
  - intros Hf.
    apply (alu_tick ANDI); [by rewrite _opcodes_opcode | by apply _op_andi_run | exact Hf].
Qed.
End alu_into_pc.

Lemma tick_alu_into_pc_witness :
  let self := preset [(REG0, 100); (PC, 8)]
                (replicate 8 (VInt 0) ++
                 [VOpcode ADDI; VAddress REG0; VInt 20; VAddress PC]) in
  registers (snd (tick self)) !! VAddress PC = Some (VInt 124).
Proof.
  intros self.
  destruct (tick_alu_into_pc self (VAddress REG0) (VAddress REG1) 100 20 8)
    as [_ [Haddi _]]; [vm_compute; reflexivity ..|].
  apply Haddi. vm_compute. reflexivity.
Defined.

(** ** The value range of the register file *)

Lemma in_range_int (z : Z) : in_range (VInt z) = true ↔ 0 ≤ z < 255.
Proof. unfold in_range. rewrite andb_true_iff, Z.leb_le, Z.ltb_lt. tauto. Qed.

Lemma land_le (a b : Z) : 0 ≤ a → 0 ≤ Z.land a b ≤ a.
Proof.
  intros Ha. split; [apply Z.land_nonneg; by left|].
  assert (H0 : Z.land (Z.land a b) (Z.ldiff a b) = 0).
  { apply Z.bits_inj'. intros n Hn.
    rewrite !Z.land_spec, Z.ldiff_spec, Z.bits_0.
    by destruct (Z.testbit a n), (Z.testbit b n). }
  assert (Hx : Z.lxor (Z.land a b) (Z.ldiff a b) = a).
  { apply Z.bits_inj'. intros n Hn.
    rewrite Z.lxor_spec, Z.land_spec, Z.ldiff_spec.
    by destruct (Z.testbit a n), (Z.testbit b n). }
  apply Z.add_nocarry_lxor in H0. rewrite Hx in H0.
  assert (0 ≤ Z.ldiff a b) by (apply Z.ldiff_nonneg; by left).
  lia.
Qed.

Lemma reg_inv_init (prog : list value) (i o : option (list Z)) : reg_inv (LEG_init prog i o).
Proof.
  unfold reg_inv, LEG_init. cbn.
  repeat (apply map_Forall_insert_2; [reflexivity|]). apply map_Forall_empty.
Qed.

Lemma reg_inv_value_of (self : LEG) (arg : value) :
  reg_inv self → in_range (value_of self arg) = true.
Proof.
  intros Hinv. unfold value_of.
  destruct (registers self !! arg) as [v|] eqn:E; [|reflexivity].
  exact (Hinv _ _ E).
Qed.

Lemma reg_inv_write (self : LEG) (arg val : value) :
  reg_inv self → in_range val = true → reg_inv (write arg val self).
Proof.
  intros Hinv Hv. unfold write. destruct (registers self !! arg); [|exact Hinv].
  unfold reg_inv. cbn. by apply map_Forall_insert_2.
Qed.

Lemma reg_inv_set_pc (self : LEG) (val : value) (j : bool) :
  reg_inv self → in_range val = true →
  reg_inv (with_jumping (with_registers self (<[VAddress PC := val]> (registers self))) j).
Proof. intros Hinv Hv. unfold reg_inv. cbn. by apply map_Forall_insert_2. Qed.

Lemma reg_inv_op_add (self : LEG) (arg1 arg2 arg3 : value) :
  reg_inv self → reg_inv (snd (_op_add arg1 arg2 arg3 self)).
Proof.
  intros Hinv. unfold _op_add, bind. rewrite !_get_run.
  destruct (value_of self arg1) as [x| |], (value_of self arg2) as [y| |];
    cbn; try exact Hinv.
  rewrite _set_run. cbn. apply reg_inv_write; [exact Hinv|].
  apply in_range_int. apply Z.mod_pos_bound. lia.
Qed.

Lemma reg_inv_op_addi (self : LEG) (arg1 arg2 arg3 : value) :
  reg_inv self → reg_inv (snd (_op_addi arg1 arg2 arg3 self)).
Proof.
  intros Hinv. unfold _op_addi, bind. rewrite !_get_run.
  destruct (value_of self arg1) as [x| |], arg2 as [y| |];
    cbn; try exact Hinv.
  rewrite _set_run. cbn. apply reg_inv_write; [exact Hinv|].
  apply in_range_int. apply Z.mod_pos_bound. lia.
Qed.

Lemma reg_inv_op_and (self : LEG) (arg1 arg2 arg3 : value) :
  reg_inv self → reg_inv (snd (_op_and arg1 arg2 arg3 self)).
Proof.
  intros Hinv. unfold _op_and, bind. rewrite !_get_run.
  pose proof (reg_inv_value_of self arg1 Hinv) as H1.
  destruct (value_of self arg1) as [x| |], (value_of self arg2) as [y| |];
    cbn; try exact Hinv.
  rewrite _set_run. cbn. apply reg_inv_write; [exact Hinv|].
  apply in_range_int in H1. apply in_range_int.
  pose proof (land_le x y). lia.
Qed.

Lemma reg_inv_op_andi (self : LEG) (arg1 arg2 arg3 : value) :
  reg_inv self → reg_inv (snd (_op_andi arg1 arg2 arg3 self)).
Proof.
  intros Hinv. unfold _op_andi, bind. rewrite !_get_run.
  pose proof (reg_inv_value_of self arg1 Hinv) as H1.
  destruct (value_of self arg1) as [x| |], arg2 as [y| |];
    cbn; try exact Hinv.
  rewrite _set_run. cbn. apply reg_inv_write; [exact Hinv|].
  apply in_range_int in H1. apply in_range_int.
  pose proof (land_le x y). lia.
Qed.

Lemma reg_inv_op_ifeq (self : LEG) (arg1 arg2 jump_addr : value) :
  reg_inv self → in_range jump_addr = true →
  reg_inv (snd (_op_ifeq arg1 arg2 jump_addr self)).
Proof.
  intros Hinv Ht. unfold _op_ifeq, bind. rewrite !_get_run.
  destruct (py_eq (value_of self arg1) (value_of self arg2)); [|exact Hinv].
  cbn. by apply reg_inv_set_pc.
Qed.

Lemma reg_inv_apply (self : LEG) (opcode arg1 arg2 arg3 : value) :
  reg_inv self →
  (opcode = VOpcode IFEQ → in_range arg3 = true) →
  reg_inv (snd (_apply opcode arg1 arg2 arg3 self)).
Proof.
  intros Hinv Ht.
  destruct (_opcodes !! opcode) as [op|] eqn:E.
  - rewrite (_apply_handler _ _ _ _ _ _ E).
    destruct opcode as [z|o|a];
      [by rewrite _opcodes_int in E | | by rewrite _opcodes_address in E].
    rewrite _opcodes_opcode in E.
    destruct o; simplify_eq.
    + by apply reg_inv_op_add.
    + by apply reg_inv_op_addi.
    + by apply reg_inv_op_and.
    + by apply reg_inv_op_andi.
    + apply reg_inv_op_ifeq; [exact Hinv | by apply Ht].
  - rewrite _apply_no_handler; [exact Hinv|]. unfold dict_contains. by rewrite E.
Qed.

Lemma reg_inv_tick (self : LEG) :
  reg_inv self →
  (∀ arg1 arg2 arg3,
     fst (_read_program self) = Ok (VOpcode IFEQ, arg1, arg2, arg3) → in_range arg3 = true) →
  reg_inv (snd (tick self)).
Proof.
  intros Hinv Ht. unfold tick, bind.
  pose proof (state_read_program self) as Hs.
  destruct (_read_program self) as [[[[[opcode arg1] arg2] arg3]|e] s0];
    cbn in Hs; subst s0; [|exact Hinv].
  assert (H1 : reg_inv (snd (_apply opcode arg1 arg2 arg3 self))).
  { apply reg_inv_apply; [exact Hinv|]. intros ->. by eapply Ht. }
  destruct (_apply opcode arg1 arg2 arg3 self) as [[[]|e] s1]; cbn in H1; [|exact H1].
  unfold gets. destruct (_jumping s1); cbn; [exact H1|].
  unfold dict_getitem.
  destruct (registers s1 !! VAddress PC) as [pc|]; [|exact H1].
  destruct pc as [z| |]; cbn; try exact H1.
  unfold reg_inv. cbn. apply map_Forall_insert_2; [|exact H1].
  apply in_range_int. apply Z.mod_pos_bound. lia.
Qed.

Lemma reg_inv_int (self : LEG) (arg : value) :
  reg_inv self → ∃ z, value_of self arg = VInt z.
Proof.
  intros Hinv. pose proof (reg_inv_value_of self arg Hinv) as H.
  destruct (value_of self arg); [by eexists | discriminate ..].
Qed.

(** C7 fails as stated: a taken IFEQ with target 255 leaves 255 in the
    program counter, outside [0, 255). *)
Lemma ifeq_target_255_out_of_range :
  reg_inv jump_to_255 ∧
  fst (tick jump_to_255) = Ok tt ∧
  registers (snd (tick jump_to_255)) !! VAddress PC = Some (VInt 255) ∧
  ¬ reg_inv (snd (tick jump_to_255)) ∧
  ¬ reg_inv (snd (_op_ifeq (VAddress REG0) (VAddress REG0) (VInt 255) jump_to_255)).
Proof.
  split; [apply reg_inv_init|].
  split; [by vm_compute|].
  assert (Hpc : registers (snd (tick jump_to_255)) !! VAddress PC = Some (VInt 255))
    by (by vm_compute).
  split; [exact Hpc|]. split.
  - intros H. specialize (H _ _ Hpc). discriminate H.
  - intros H. specialize (H (VAddress PC) (VInt 255)).
    assert (in_range (VInt 255) = true) by (apply H; by vm_compute). discriminate.
Qed.

(** C7, as the code has it: the initial register file holds values in
    [0, 255); ADD, ADDI, AND and ANDI keep every stored value in that range
    for all operands; IFEQ and the tick driver keep it when the jump target
    is itself an int in [0, 255), since a taken IFEQ stores its literal
    target without reduction. *)
Theorem reg_inv_preserved (self : LEG) (arg1 arg2 arg3 : value) :
  reg_inv self →
  (∀ prog i o, reg_inv (LEG_init prog i o)) ∧
  (fst (_op_add arg1 arg2 arg3 self) = Ok tt ∧
   reg_inv (snd (_op_add arg1 arg2 arg3 self))) ∧
  ((∀ imm, arg2 = VInt imm → fst (_op_addi arg1 arg2 arg3 self) = Ok tt) ∧
   reg_inv (snd (_op_addi arg1 arg2 arg3 self))) ∧
  (fst (_op_and arg1 arg2 arg3 self) = Ok tt ∧
   reg_inv (snd (_op_and arg1 arg2 arg3 self))) ∧
  ((∀ imm, arg2 = VInt imm → fst (_op_andi arg1 arg2 arg3 self) = Ok tt) ∧
   reg_inv (snd (_op_andi arg1 arg2 arg3 self))) ∧
  (fst (_op_ifeq arg1 arg2 arg3 self) = Ok tt ∧
   (in_range arg3 = true → reg_inv (snd (_op_ifeq arg1 arg2 arg3 self)))) ∧
  ((∀ a b target,
      fst (_read_program self) = Ok (VOpcode IFEQ, a, b, target) →
      in_range target = true) →
   reg_inv (snd (tick self))).
Proof.
  intros Hinv.
  destruct (reg_inv_int self arg1 Hinv) as [x Hx].
  destruct (reg_inv_int self arg2 Hinv) as [y Hy].
  split; [apply reg_inv_init|].
  split; [split; [by erewrite _op_add_run | by apply reg_inv_op_add]|].
  split; [split; [intros imm ->; by erewrite _op_addi_run | by apply reg_inv_op_addi]|].
  split; [split; [by erewrite _op_and_run | by apply reg_inv_op_and]|].
  split; [split; [intros imm ->; by erewrite _op_andi_run | by apply reg_inv_op_andi]|].
  split; [split; [| by apply reg_inv_op_ifeq]|].
  - unfold _op_ifeq, bind. rewrite !_get_run.
    by destruct (py_eq (value_of self arg1) (value_of self arg2)).
  - by apply reg_inv_tick.
Qed.

Lemma reg_inv_preserved_witness :
  let self := preset [(REG2, 7); (REG3, 7); (PC, 12)]
                (replicate 12 (VInt 0) ++
                 [VOpcode IFEQ; VAddress REG2; VAddress REG3; VInt 0x00]) in
  reg_inv (snd (_op_ifeq (VAddress REG2) (VAddress REG3) (VInt 254) self)) ∧
  reg_inv (snd (tick self)).
Proof.
  intros self.
  destruct (reg_inv_preserved self (VAddress REG2) (VAddress REG3) (VInt 254))
    as (_ & _ & _ & _ & _ & [_ Hifeq] & Htick).
  - apply (bool_decide_unpack _). vm_compute. exact I.
  - split; [apply Hifeq; reflexivity|].
    apply Htick. intros a b target. vm_compute. intros [= _ _ <-]. reflexivity.
Defined.

(** ** The fetch near the end of the program *)

(** C8 fails as stated: with 255 entries the fetch reads [program[255]],
    which is out of range; the tick raises and the program counter stays at
    252.  The machine is the one reached from [LEG_init] after 63 ticks. *)
Lemma tick_at_252_of_255_raises :
  length (program near_end_255) = 255%nat ∧
  registers near_end_255 !! VAddress PC = Some (VInt 252) ∧
  _jumping near_end_255 = false ∧
  dict_contains _opcodes (VInt 0) = false ∧
  list_getitem (program near_end_255) (VInt 255) = Raise IndexError ∧
  fst (tick near_end_255) = Raise IndexError ∧
  registers (snd (tick near_end_255)) !! VAddress PC = Some (VInt 252) ∧
  ticks 63 (LEG_init (replicate 255 (VInt 0)) None None) = (Ok tt, near_end_255) ∧
  fst (ticks 64 (LEG_init (replicate 255 (VInt 0)) None None)) = Raise IndexError.
Proof. repeat split; by vm_compute. Qed.

Lemma list_getitem_in_bounds (l : list value) (z : Z) :
  0 ≤ z < Z.of_nat (length l) →
  ∃ v, l !! Z.to_nat z = Some v ∧ list_getitem l (VInt z) = Ok v.
Proof.
  intros Hz. unfold list_getitem.
  destruct (z <? 0) eqn:E; [apply Z.ltb_lt in E; lia|].
  assert (Hb : (0 <=? z) && (z <? Z.of_nat (length l)) = true).
  { apply andb_true_iff. rewrite Z.leb_le, Z.ltb_lt. lia. }
  cbn zeta. rewrite Hb.
  destruct (lookup_lt_is_Some_2 l (Z.to_nat z)) as [v Hv]; [lia|].
  exists v. by rewrite Hv.
Qed.

Lemma apply_in_sequence (self : LEG) (opcode arg1 arg2 arg3 : value) :
  operands_int self opcode arg1 arg2 = true →
  takes_jump self opcode arg1 arg2 = false →
  writes_pc opcode arg3 = false →
  ∃ s1,
    _apply opcode arg1 arg2 arg3 self = (Ok tt, s1) ∧
    _jumping s1 = _jumping self ∧
    registers s1 !! VAddress PC = registers self !! VAddress PC.
Proof.
  intros Hint Hjump Hw.
  assert (Hwrite : ∀ v, writes_pc opcode arg3 = bool_decide (arg3 = VAddress PC) →
            _jumping (write arg3 v self) = _jumping self ∧
            registers (write arg3 v self) !! VAddress PC = registers self !! VAddress PC).
  { intros v E. rewrite Hw in E. symmetry in E. apply bool_decide_eq_false in E.
    split; [apply write_jumping | by apply write_lookup_ne]. }
  assert (Hval : ∀ v, is_int v = true → ∃ z, v = VInt z).
  { intros [z| |] H; [by exists z | discriminate ..]. }
  destruct (_opcodes !! opcode) as [op|] eqn:E.
  - rewrite (_apply_handler _ _ _ _ _ _ E).
    destruct opcode as [z|o|a];
      [by rewrite _opcodes_int in E | | by rewrite _opcodes_address in E].
    rewrite _opcodes_opcode in E.
    destruct o; simplify_eq; cbn [operands_int takes_jump] in *.
    + apply andb_true_iff in Hint as [[x Hx]%Hval [y Hy]%Hval].
      eexists. split; [by apply _op_add_run | by apply Hwrite].
    + apply andb_true_iff in Hint as [[x Hx]%Hval [y ->]%Hval].
      eexists. split; [by apply _op_addi_run | by apply Hwrite].
    + apply andb_true_iff in Hint as [[x Hx]%Hval [y Hy]%Hval].
      eexists. split; [by apply _op_and_run | by apply Hwrite].
    + apply andb_true_iff in Hint as [[x Hx]%Hval [y ->]%Hval].
      eexists. split; [by apply _op_andi_run | by apply Hwrite].
    + exists self. split; [|done].
      unfold _op_ifeq, bind. rewrite !_get_run. unfold py_eq. by rewrite Hjump.
  - exists self. split; [|done].
    apply _apply_no_handler. unfold dict_contains. by rewrite E.
Qed.

(** C8, as the code has it: with at least 256 entries in the program and the
    program counter at 252, the fetch of [program[252 .. 255]] succeeds; when
    the fetched instruction applies [+] or [&] to ints only, is no IFEQ on
    equal operand values and has no ALU write to the program counter, the
    handler and the tick complete and the tick leaves 1 = (252 + 4) mod 255
    in the program counter. *)
Theorem tick_at_252 (self : LEG) (opcode arg1 arg2 arg3 : value) :
  (256 ≤ length (program self))%nat →
  registers self !! VAddress PC = Some (VInt 252) →
  _jumping self = false →
  program self !! 252%nat = Some opcode →
  program self !! 253%nat = Some arg1 →
  program self !! 254%nat = Some arg2 →
  program self !! 255%nat = Some arg3 →
  _read_program self = (Ok (opcode, arg1, arg2, arg3), self) ∧
  (operands_int self opcode arg1 arg2 = true →
   takes_jump self opcode arg1 arg2 = false →
   writes_pc opcode arg3 = false →
   ∃ s1,
     _apply opcode arg1 arg2 arg3 self = (Ok tt, s1) ∧
     tick self = (Ok tt, with_registers s1 (<[VAddress PC := VInt 1]> (registers s1))) ∧
     registers (snd (tick self)) !! VAddress PC = Some (VInt ((252 + 4) mod 255))).
Proof.
  intros Hlen Hpc Hj P0 P1 P2 P3.
  destruct (list_getitem_in_bounds (program self) 252) as (v0 & L0 & G0); [lia|].
  destruct (list_getitem_in_bounds (program self) 253) as (v1 & L1 & G1); [lia|].
  destruct (list_getitem_in_bounds (program self) 254) as (v2 & L2 & G2); [lia|].
  destruct (list_getitem_in_bounds (program self) 255) as (v3 & L3 & G3); [lia|].
  change (Z.to_nat 252) with 252%nat in L0. change (Z.to_nat 253) with 253%nat in L1.
  change (Z.to_nat 254) with 254%nat in L2. change (Z.to_nat 255) with 255%nat in L3.
  simplify_eq.
  assert (Hf : _read_program self = (Ok (opcode, arg1, arg2, arg3), self)).
  { unfold _read_program, bind, gets, lift, dict_getitem. rewrite Hpc.
    cbn [py_add]. change (252 + 1) with 253. change (252 + 2) with 254.
    change (252 + 3) with 255. by rewrite G0, G1, G2, G3. }
  split; [exact Hf|]. intros Hint Hjump Hw.
  destruct (apply_in_sequence self opcode arg1 arg2 arg3 Hint Hjump Hw)
    as (s1 & Ha & Hj1 & Hpc1).
  rewrite Hj in Hj1. rewrite Hpc in Hpc1.
  exists s1. split; [exact Ha|].
  assert (Ht : tick self =
      (Ok tt, with_registers s1 (<[VAddress PC := VInt 1]> (registers s1)))).
  { rewrite (tick_sequential self s1 opcode arg1 arg2 arg3 252);
      [reflexivity | by rewrite Hf | exact Ha | exact Hj1 | exact Hpc1]. }
  split; [exact Ht|]. rewrite Ht. cbn. apply lookup_insert_eq.
Qed.

Lemma tick_at_252_witness :
  let alu := preset [(REG0, 100); (PC, 252)]
               (replicate 252 (VInt 0) ++
                [VOpcode ADDI; VAddress REG0; VInt 5; VAddress REG0]) in
  let ifeq := preset [(REG2, 7); (REG3, 8); (PC, 252)]
                (replicate 252 (VInt 0) ++
                 [VOpcode IFEQ; VAddress REG2; VAddress REG3; VInt 0x00]) in
  (fst (tick alu) = Ok tt ∧
   registers (snd (tick alu)) !! VAddress PC = Some (VInt 1) ∧
   registers (snd (tick alu)) !! VAddress REG0 = Some (VInt 105)) ∧
  (fst (tick ifeq) = Ok tt ∧
   registers (snd (tick ifeq)) !! VAddress PC = Some (VInt 1)).
Proof.
  intros alu ifeq. split.
  - destruct (tick_at_252 alu (VOpcode ADDI) (VAddress REG0) (VInt 5) (VAddress REG0))
      as [_ H]; [vm_compute; (lia || reflexivity) ..|].
    destruct H as (s1 & Ha & Ht & Hpc); [vm_compute; reflexivity ..|].
    split; [by rewrite Ht|]. split; [exact Hpc|].
    rewrite Ht. vm_compute in Ha. injection Ha as <-. vm_compute. reflexivity.
  - destruct (tick_at_252 ifeq (VOpcode IFEQ) (VAddress REG2) (VAddress REG3) (VInt 0))
      as [_ H]; [vm_compute; (lia || reflexivity) ..|].
    destruct H as (s1 & Ha & Ht & Hpc); [vm_compute; reflexivity ..|].
    split; [by rewrite Ht | exact Hpc].
Defined.

(** ** Invariants of a run

    The side conditions of the statements above hold along every run that
    starts from [LEG_init]: [between_ticks] holds initially and after every
    tick, whether it completed or raised. *)

Lemma dom_insert_key (regs : gmap value value) (k v : value) :
  is_Some (regs !! k) → dom (<[k := v]> regs) = dom regs.
Proof.
  intros Hk%elem_of_dom. rewrite dom_insert_L.
  apply set_eq. intros x. rewrite elem_of_union, elem_of_singleton.
  split; [intros [->|]; done | by right].
Qed.

Lemma dom_write (arg val : value) (self : LEG) :
  dom (registers (write arg val self)) = dom (registers self).
Proof.
  unfold write. destruct (registers self !! arg) eqn:E; [|reflexivity].
  cbn. apply dom_insert_key. by rewrite E.
Qed.

Lemma pc_is_key : VAddress PC ∈ register_keys.
Proof. apply register_keys_spec. by exists PC. Qed.

Lemma apply_between_ticks (self : LEG) (opcode arg1 arg2 arg3 : value) :
  dom (registers self) = register_keys →
  dom (registers (snd (_apply opcode arg1 arg2 arg3 self))) = register_keys.
Proof.
  intros Hdom.
  assert (Hpc : is_Some (registers self !! VAddress PC)).
  { apply elem_of_dom. rewrite Hdom. apply pc_is_key. }
  assert (Hw : ∀ k v, dom (registers (write k v self)) = register_keys).
  { intros k v. by rewrite dom_write. }
  destruct (_opcodes !! opcode) as [op|] eqn:E.
  - rewrite (_apply_handler _ _ _ _ _ _ E).
    destruct opcode as [z|o|a];
      [by rewrite _opcodes_int in E | | by rewrite _opcodes_address in E].
    rewrite _opcodes_opcode in E.
    destruct o; simplify_eq.
    + unfold _op_add, bind. rewrite !_get_run.
      destruct (value_of self arg1), (value_of self arg2); cbn; try exact Hdom.
      rewrite _set_run. cbn. apply Hw.
    + unfold _op_addi, bind. rewrite !_get_run.
      destruct (value_of self arg1), arg2; cbn; try exact Hdom.
      rewrite _set_run. cbn. apply Hw.
    + unfold _op_and, bind. rewrite !_get_run.
      destruct (value_of self arg1), (value_of self arg2); cbn; try exact Hdom.
      rewrite _set_run. cbn. apply Hw.
    + unfold _op_andi, bind. rewrite !_get_run.
      destruct (value_of self arg1), arg2; cbn; try exact Hdom.
      rewrite _set_run. cbn. apply Hw.
    + unfold _op_ifeq, bind. rewrite !_get_run.
      destruct (py_eq (value_of self arg1) (value_of self arg2)); [|exact Hdom].
      cbn. unfold dict_setitem. by rewrite dom_insert_key.
  - rewrite _apply_no_handler; [exact Hdom|]. unfold dict_contains. by rewrite E.
Qed.

Lemma init_between_ticks (prog : list value) (i o : option (list Z)) :
  between_ticks (LEG_init prog i o).
Proof. split; [|reflexivity]. by vm_compute. Qed.

Lemma tick_between_ticks (self : LEG) :
  between_ticks self → between_ticks (snd (tick self)).
Proof.
  intros [Hdom Hj]. unfold tick, bind.
  pose proof (state_read_program self) as Hs.
  destruct (_read_program self) as [[[[[opcode arg1] arg2] arg3]|e] s0];
    cbn in Hs; subst s0; [|by split].
  pose proof (apply_between_ticks self opcode arg1 arg2 arg3 Hdom) as H1.
  assert (H2 : fst (_apply opcode arg1 arg2 arg3 self) ≠ Ok tt →
               _jumping (snd (_apply opcode arg1 arg2 arg3 self)) = false).
  { destruct (_opcodes !! opcode) as [op|] eqn:E.
    - rewrite (_apply_handler _ _ _ _ _ _ E).
      destruct opcode as [z|o|a];
        [by rewrite _opcodes_int in E | | by rewrite _opcodes_address in E].
      rewrite _opcodes_opcode in E.
      destruct o; simplify_eq;
        unfold _op_add, _op_addi, _op_and, _op_andi, _op_ifeq, bind;
        rewrite !_get_run.
      + destruct (value_of self arg1), (value_of self arg2); cbn; try done.
        rewrite _set_run. by cbn.
      + destruct (value_of self arg1), arg2; cbn; try done.
        rewrite _set_run. by cbn.
      + destruct (value_of self arg1), (value_of self arg2); cbn; try done.
        rewrite _set_run. by cbn.
      + destruct (value_of self arg1), arg2; cbn; try done.
        rewrite _set_run. by cbn.
      + by destruct (py_eq (value_of self arg1) (value_of self arg2)).
    - rewrite _apply_no_handler; [done|]. unfold dict_contains. by rewrite E. }
  destruct (_apply opcode arg1 arg2 arg3 self) as [[[]|e] s1]; cbn in H1, H2;
    [|split; [exact H1 | by apply H2]].
  unfold gets. destruct (_jumping s1) eqn:Hj1; cbn; [by split|].
  unfold dict_getitem.
  destruct (registers s1 !! VAddress PC) as [pc|] eqn:Epc; [|by split].
  destruct pc as [z| |]; cbn; try by split.
  split; [|exact Hj1]. cbn. unfold dict_setitem.
  rewrite dom_insert_key; [exact H1 | by rewrite Epc].
Qed.

Lemma ticks_between_ticks (n : nat) (self : LEG) :
  between_ticks self → between_ticks (snd (ticks n self)).
Proof.
  revert self. induction n as [|n IH]; intros self H; [exact H|].
  cbn [ticks]. unfold bind.
  pose proof (tick_between_ticks self H) as H1.
  destruct (tick self) as [[[]|e] s1]; cbn in H1; [by apply IH | exact H1].
Qed.

(** The run of the [__main__] block: twenty ticks, five rounds of the
    four-instruction loop. *)
Example main_run :
  let final := ticks 20 (LEG_init main_program None None) in
  fst final = Ok tt ∧
  registers (snd final) !! VAddress REG0 = Some (VInt 65) ∧
  registers (snd final) !! VAddress REG1 = Some (VInt 50) ∧
  registers (snd final) !! VAddress REG2 = Some (VInt 0) ∧
  registers (snd final) !! VAddress PC = Some (VInt 0).
Proof. by vm_compute. Qed.

(** ** Outcomes of a handler and of a tick *)

Lemma op_add_outcome (self : LEG) (arg1 arg2 dest : value) :
  _op_add arg1 arg2 dest self = (Raise TypeError, self) ∨
  ∃ z, _op_add arg1 arg2 dest self = (Ok tt, write dest (VInt z) self).
Proof.
  unfold _op_add, bind. rewrite !_get_run.
  destruct (value_of self arg1) as [x| |], (value_of self arg2) as [y| |]; cbn; try by left.
  right. eexists. by rewrite _set_run.
Qed.

Lemma op_addi_outcome (self : LEG) (arg1 arg2 dest : value) :
  _op_addi arg1 arg2 dest self = (Raise TypeError, self) ∨
  ∃ z, _op_addi arg1 arg2 dest self = (Ok tt, write dest (VInt z) self).
Proof.
  unfold _op_addi, bind. rewrite !_get_run.
  destruct (value_of self arg1) as [x| |], arg2 as [y| |]; cbn; try by left.
  right. eexists. by rewrite _set_run.
Qed.

Lemma op_and_outcome (self : LEG) (arg1 arg2 dest : value) :
  _op_and arg1 arg2 dest self = (Raise TypeError, self) ∨
  ∃ z, _op_and arg1 arg2 dest self = (Ok tt, write dest (VInt z) self).
Proof.
  unfold _op_and, bind. rewrite !_get_run.
  destruct (value_of self arg1) as [x| |], (value_of self arg2) as [y| |]; cbn; try by left.
  right. eexists. by rewrite _set_run.
Qed.

Lemma op_andi_outcome (self : LEG) (arg1 arg2 dest : value) :
  _op_andi arg1 arg2 dest self = (Raise TypeError, self) ∨
  ∃ z, _op_andi arg1 arg2 dest self = (Ok tt, write dest (VInt z) self).
Proof.
  unfold _op_andi, bind. rewrite !_get_run.
  destruct (value_of self arg1) as [x| |], arg2 as [y| |]; cbn; try by left.
  right. eexists. by rewrite _set_run.
Qed.

Lemma op_ifeq_run (self : LEG) (arg1 arg2 jump_addr : value) :
  _op_ifeq arg1 arg2 jump_addr self =
    if py_eq (value_of self arg1) (value_of self arg2)
    then (Ok tt, with_jumping
                   (with_registers self (<[VAddress PC := jump_addr]> (registers self))) true)
    else (Ok tt, self).
Proof.
  unfold _op_ifeq, bind. rewrite !_get_run.
  by destruct (py_eq (value_of self arg1) (value_of self arg2)).
Qed.

Lemma apply_cases (self : LEG) (opcode arg1 arg2 arg3 : value) :
  apply_outcome self arg3 (_apply opcode arg1 arg2 arg3 self).
Proof.
  destruct (_opcodes !! opcode) as [op|] eqn:E.
  - rewrite (_apply_handler _ _ _ _ _ _ E).
    destruct opcode as [z|o|a];
      [by rewrite _opcodes_int in E | | by rewrite _opcodes_address in E].
    rewrite _opcodes_opcode in E.
    destruct o; simplify_eq.
    + destruct (op_add_outcome self arg1 arg2 arg3) as [->|[z ->]]; constructor.
    + destruct (op_addi_outcome self arg1 arg2 arg3) as [->|[z ->]]; constructor.
    + destruct (op_and_outcome self arg1 arg2 arg3) as [->|[z ->]]; constructor.
    + destruct (op_andi_outcome self arg1 arg2 arg3) as [->|[z ->]]; constructor.
    + rewrite op_ifeq_run.
      destruct (py_eq (value_of self arg1) (value_of self arg2)); constructor.
  - rewrite _apply_no_handler; [constructor|]. unfold dict_contains. by rewrite E.
Qed.

Lemma fetch_pc_int (self : LEG) (i : value * value * value * value) :
  fst (_read_program self) = Ok i → ∃ pc, registers self !! VAddress PC = Some (VInt pc).
Proof.
  unfold _read_program, bind, gets, lift, dict_getitem.
  destruct (registers self !! VAddress PC) as [[pc| |]|]; cbn; try discriminate.
  by exists pc.
Qed.

Lemma write_pc_int (self : LEG) (arg : value) (z pc : Z) :
  registers self !! VAddress PC = Some (VInt pc) →
  ∃ pc', registers (write arg (VInt z) self) !! VAddress PC = Some (VInt pc').
Proof.
  intros Hpc. destruct (decide (arg = VAddress PC)) as [->|Hne].
  - exists z. apply write_lookup_eq. by rewrite Hpc.
  - exists pc. rewrite write_lookup_ne; [exact Hpc | done].
Qed.

(** ** The fetch *)

Lemma list_getitem_int (l : list value) (z : Z) :
  let n := Z.of_nat (length l) in
  (- n ≤ z < n →
     ∃ v, l !! Z.to_nat (z mod n) = Some v ∧ list_getitem l (VInt z) = Ok v) ∧
  (¬ (- n ≤ z < n) → list_getitem l (VInt z) = Raise IndexError).
Proof.
  intros n. unfold list_getitem. fold n. cbn zeta.
  split.
  - intros Hz.
    assert (Hk : (if z <? 0 then z + n else z) = z mod n).
    { destruct (z <? 0) eqn:E.
      - apply Z.ltb_lt in E. rewrite <- (Z_mod_plus_full z 1 n), Z.mul_1_l.
        symmetry. apply Z.mod_small. lia.
      - apply Z.ltb_ge in E. symmetry. apply Z.mod_small. lia. }
    rewrite Hk.
    assert (Hm : 0 ≤ z mod n < n) by (apply Z.mod_pos_bound; lia).
    assert (Hb : (0 <=? z mod n) && (z mod n <? n) = true).
    { apply andb_true_iff. rewrite Z.leb_le, Z.ltb_lt. lia. }
    rewrite Hb.
    destruct (lookup_lt_is_Some_2 l (Z.to_nat (z mod n))) as [v Hv]; [lia|].
    exists v. by rewrite Hv.
  - intros Hz.
    assert (Hb : (0 <=? (if z <? 0 then z + n else z)) &&
                 ((if z <? 0 then z + n else z) <? n) = false).
    { apply andb_false_iff. rewrite Z.leb_gt, Z.ltb_ge.
      destruct (z <? 0) eqn:E; [apply Z.ltb_lt in E | apply Z.ltb_ge in E]; lia. }
    by rewrite Hb.
Qed.

Lemma read_program_at (self : LEG) (pc : Z) :
  registers self !! VAddress PC = Some (VInt pc) →
  _read_program self =
    match list_getitem (program self) (VInt pc) with
    | Raise e => (Raise e, self)
    | Ok opcode =>
        match list_getitem (program self) (VInt (pc + 1)) with
        | Raise e => (Raise e, self)
        | Ok arg1 =>
            match list_getitem (program self) (VInt (pc + 2)) with
            | Raise e => (Raise e, self)
            | Ok arg2 =>
                match list_getitem (program self) (VInt (pc + 3)) with
                | Raise e => (Raise e, self)
                | Ok arg3 => (Ok (opcode, arg1, arg2, arg3), self)
                end
            end
        end
    end.
Proof.
  intros Hpc. unfold _read_program, bind, gets, lift, dict_getitem, ret. rewrite Hpc.
  cbn [py_add].
  destruct (list_getitem (program self) (VInt pc)); [|reflexivity].
  destruct (list_getitem (program self) (VInt (pc + 1))); [|reflexivity].
  destruct (list_getitem (program self) (VInt (pc + 2))); [|reflexivity].
  by destruct (list_getitem (program self) (VInt (pc + 3))).
Qed.

(** X1: the fetch succeeds exactly when the program counter holds an int pc
    with -len <= pc and pc + 3 < len, where len is the length of the program;
    it then reads the four slots pc .. pc + 3, each index taken modulo len,
    so that a negative program counter reads from the end of the program. *)
Theorem fetch_succeeds_iff (self : LEG) (opcode arg1 arg2 arg3 : value) :
  let n := Z.of_nat (length (program self)) in
  _read_program self = (Ok (opcode, arg1, arg2, arg3), self) ↔
  ∃ pc,
    registers self !! VAddress PC = Some (VInt pc) ∧
    - n ≤ pc ∧ pc + 3 < n ∧
    program self !! Z.to_nat (pc mod n) = Some opcode ∧
    program self !! Z.to_nat ((pc + 1) mod n) = Some arg1 ∧
    program self !! Z.to_nat ((pc + 2) mod n) = Some arg2 ∧
    program self !! Z.to_nat ((pc + 3) mod n) = Some arg3.
Proof.
  intros n. split.
  - intros Hf.
    destruct (fetch_pc_int self (opcode, arg1, arg2, arg3)) as [pc Hpc]; [by rewrite Hf|].
    exists pc. split; [exact Hpc|].
    rewrite (read_program_at self pc Hpc) in Hf.
    destruct (list_getitem_int (program self) pc) as [I0 E0].
    destruct (list_getitem_int (program self) (pc + 3)) as [I3 E3].
    destruct (list_getitem_int (program self) (pc + 1)) as [I1 _].
    destruct (list_getitem_int (program self) (pc + 2)) as [I2 _].
    fold n in I0, E0, I1, I2, I3, E3.
    destruct (decide (- n ≤ pc < n)) as [H0|H0]; [|by rewrite (E0 H0) in Hf].
    destruct (decide (- n ≤ pc + 3 < n)) as [H3|H3].
    + destruct (I0 H0) as (v0 & L0 & G0). destruct (I3 H3) as (v3 & L3 & G3).
      destruct I1 as (v1 & L1 & G1); [lia|]. destruct I2 as (v2 & L2 & G2); [lia|].
      rewrite G0, G1, G2, G3 in Hf. simplify_eq. repeat split; (lia || done).
    + rewrite (E3 H3) in Hf.
      destruct (list_getitem (program self) (VInt pc)); [|discriminate].
      destruct (list_getitem (program self) (VInt (pc + 1))); [|discriminate].
      by destruct (list_getitem (program self) (VInt (pc + 2))).
  - intros (pc & Hpc & Hlo & Hhi & L0 & L1 & L2 & L3).
    rewrite (read_program_at self pc Hpc).
    destruct (list_getitem_int (program self) pc) as [I0 _].
    destruct (list_getitem_int (program self) (pc + 1)) as [I1 _].
    destruct (list_getitem_int (program self) (pc + 2)) as [I2 _].
    destruct (list_getitem_int (program self) (pc + 3)) as [I3 _].
    fold n in I0, I1, I2, I3.
    destruct I0 as (v0 & L0' & ->); [lia|]. destruct I1 as (v1 & L1' & ->); [lia|].
    destruct I2 as (v2 & L2' & ->); [lia|]. destruct I3 as (v3 & L3' & ->); [lia|].
    by simplify_eq.
Qed.

(** ** When a tick raises *)

Lemma read_program_error (self : LEG) (e : exn) :
  fst (_read_program self) = Raise e →
  e = IndexError ∨ e = TypeError ∨ (e = KeyError ∧ registers self !! VAddress PC = None).
Proof.
  destruct (registers self !! VAddress PC) as [v|] eqn:Hpc.
  - destruct v as [pc| |].
    + rewrite (read_program_at self pc Hpc).
      assert (Hg : ∀ z r, list_getitem (program self) (VInt z) = Raise r → r = IndexError).
      { intros z r Hr. destruct (list_getitem_int (program self) z) as [I E].
        destruct (decide (- Z.of_nat (length (program self)) ≤ z
                          < Z.of_nat (length (program self)))) as [H|H].
        - destruct (I H) as (v & _ & G). congruence.
        - rewrite (E H) in Hr. congruence. }
      destruct (list_getitem (program self) (VInt pc)) eqn:G0;
        [|intros [= <-]; left; by eapply Hg].
      destruct (list_getitem (program self) (VInt (pc + 1))) eqn:G1;
        [|intros [= <-]; left; by eapply Hg].
      destruct (list_getitem (program self) (VInt (pc + 2))) eqn:G2;
        [|intros [= <-]; left; by eapply Hg].
      destruct (list_getitem (program self) (VInt (pc + 3))) eqn:G3;
        [discriminate|intros [= <-]; left; by eapply Hg].
    + unfold _read_program, bind, gets, lift, dict_getitem. rewrite Hpc. cbn.
      intros [= <-]. right. by left.
    + unfold _read_program, bind, gets, lift, dict_getitem. rewrite Hpc. cbn.
      intros [= <-]. right. by left.
  - unfold _read_program, bind, gets, lift, dict_getitem. rewrite Hpc. cbn.
    intros [= <-]. right. by right.
Qed.

Lemma tick_step (self : LEG) (opcode arg1 arg2 arg3 : value) :
  fst (_read_program self) = Ok (opcode, arg1, arg2, arg3) →
  tick self =
    match _apply opcode arg1 arg2 arg3 self with
    | (Ok _, s1) => advance s1
    | (Raise e, s1) => (Raise e, s1)
    end.
Proof.
  intros Hf%fetched_read_program. unfold tick. unfold bind at 1. rewrite Hf. reflexivity.
Qed.

(** The last four lines of [tick] complete when the program counter holds an
    int or the jump flag is set. *)
Lemma advance_completes (s1 : LEG) (pc : Z) :
  registers s1 !! VAddress PC = Some (VInt pc) ∨ _jumping s1 = true →
  ∃ s2, advance s1 = (Ok tt, s2).
Proof.
  intros H. unfold advance, bind, gets. destruct (_jumping s1) eqn:Hj; cbn.
  - by eexists.
  - destruct H as [Hpc|?]; [|discriminate].
    unfold dict_getitem. rewrite Hpc. cbn. by eexists.
Qed.

Lemma tick_after_apply (self : LEG) (opcode arg1 arg2 arg3 : value) :
  fst (_read_program self) = Ok (opcode, arg1, arg2, arg3) →
  (_apply opcode arg1 arg2 arg3 self = (Raise TypeError, self) ∧
   tick self = (Raise TypeError, self)) ∨
  (fst (_apply opcode arg1 arg2 arg3 self) = Ok tt ∧ ∃ s2, tick self = (Ok tt, s2)).
Proof.
  intros Hf. destruct (fetch_pc_int self _ Hf) as [pc Hpc].
  rewrite (tick_step self opcode arg1 arg2 arg3 Hf).
  destruct (apply_cases self opcode arg1 arg2 arg3) as [| |z|].
  - right. split; [done|]. apply (advance_completes self pc). by left.
  - left. by split.
  - right. split; [done|].
    destruct (write_pc_int self arg3 z pc Hpc) as [pc' Hpc'].
    apply (advance_completes _ pc'). by left.
  - right. split; [done|]. apply (advance_completes _ 0). by right.
Qed.

Lemma tick_raise_cases (self : LEG) (e : exn) :
  fst (tick self) = Raise e →
  tick self = (Raise e, self) ∧
  (fst (_read_program self) = Raise e ∨
   ∃ opcode arg1 arg2 arg3,
     fst (_read_program self) = Ok (opcode, arg1, arg2, arg3) ∧
     _apply opcode arg1 arg2 arg3 self = (Raise TypeError, self) ∧ e = TypeError).
Proof.
  intros Ht.
  destruct (fst (_read_program self)) as [[[[opcode arg1] arg2] arg3]|e'] eqn:Hf.
  - destruct (tick_after_apply self opcode arg1 arg2 arg3 Hf) as [[Ha Hr]|[_ [s2 Hr]]];
      rewrite Hr in Ht; cbn in Ht; [|discriminate].
    injection Ht as <-. split; [exact Hr|]. right. by exists opcode, arg1, arg2, arg3.
  - pose proof (state_read_program self) as Hs.
    assert (Hr : tick self = (Raise e', self)).
    { unfold tick. unfold bind at 1.
      destruct (_read_program self) as [r s0]. cbn in Hf, Hs. by subst. }
    rewrite Hr in Ht. cbn in Ht. injection Ht as <-. split; [exact Hr | by left].
Qed.

(** X2: a tick that raises leaves the machine exactly as it was: no
    register, flag or memory is changed and the program counter is not
    advanced. *)
Theorem tick_raise_unchanged (self : LEG) (e : exn) :
  fst (tick self) = Raise e → tick self = (Raise e, self).
Proof. intros Ht. by apply tick_raise_cases. Qed.

(** X3: a tick raises nothing but IndexError (a slot of the instruction is
    outside the program), TypeError (the program counter or an operand of [+]
    or [&] is not an int) or, when the register dictionary has no program
    counter, KeyError. *)
Theorem tick_raises_only (self : LEG) (e : exn) :
  fst (tick self) = Raise e →
  e = IndexError ∨ e = TypeError ∨ (e = KeyError ∧ registers self !! VAddress PC = None).
Proof.
  intros Ht. destruct (tick_raise_cases self e Ht) as [_ [Hf|(? & ? & ? & ? & _ & _ & ->)]].
  - by apply read_program_error.
  - right. by left.
Qed.

(** ** When a tick completes *)

Lemma is_int_VInt (v : value) : is_int v = true ↔ ∃ z, v = VInt z.
Proof. destruct v; cbn; split; intros H; try done; first [by eexists | by destruct H]. Qed.

Lemma apply_ok_iff (self : LEG) (opcode arg1 arg2 arg3 : value) :
  fst (_apply opcode arg1 arg2 arg3 self) = Ok tt ↔ operands_int self opcode arg1 arg2 = true.
Proof.
  destruct (_opcodes !! opcode) as [op|] eqn:E.
  - rewrite (_apply_handler _ _ _ _ _ _ E).
    destruct opcode as [z|o|a];
      [by rewrite _opcodes_int in E | | by rewrite _opcodes_address in E].
    rewrite _opcodes_opcode in E.
    destruct o; simplify_eq; cbn [operands_int].
    + unfold _op_add, bind. rewrite !_get_run.
      destruct (value_of self arg1), (value_of self arg2); cbn; try done.
      by rewrite _set_run.
    + unfold _op_addi, bind. rewrite !_get_run.
      destruct (value_of self arg1), arg2; cbn; try done.
      by rewrite _set_run.
    + unfold _op_and, bind. rewrite !_get_run.
      destruct (value_of self arg1), (value_of self arg2); cbn; try done.
      by rewrite _set_run.
    + unfold _op_andi, bind. rewrite !_get_run.
      destruct (value_of self arg1), arg2; cbn; try done.
      by rewrite _set_run.
    + rewrite op_ifeq_run.
      by destruct (py_eq (value_of self arg1) (value_of self arg2)).
  - rewrite _apply_no_handler; [|unfold dict_contains; by rewrite E].
    destruct opcode as [z|o|a]; [done| |done].
    rewrite _opcodes_opcode in E. by destruct o.
Qed.

(** X4: a tick completes exactly when the fetch succeeds and the operands
    that the fetched instruction adds or ands are plain ints (for ADD and AND
    the two operand values, for ADDI and ANDI the first operand value and the
    immediate); instructions of every other opcode always complete. *)
Theorem tick_completes_iff (self : LEG) :
  fst (tick self) = Ok tt ↔
  ∃ opcode arg1 arg2 arg3,
    fst (_read_program self) = Ok (opcode, arg1, arg2, arg3) ∧
    operands_int self opcode arg1 arg2 = true.
Proof.
  split.
  - intros Ht.
    destruct (fst (_read_program self)) as [[[[opcode arg1] arg2] arg3]|e] eqn:Hf.
    + exists opcode, arg1, arg2, arg3. split; [done|]. apply (apply_ok_iff self opcode arg1 arg2 arg3).
      destruct (tick_after_apply self opcode arg1 arg2 arg3 Hf) as [[_ Hr]|[Ha _]];
        [by rewrite Hr in Ht | exact Ha].
    + pose proof (state_read_program self) as Hs.
      unfold tick in Ht. unfold bind at 1 in Ht.
      destruct (_read_program self) as [r s0]. cbn in Hf. by subst.
  - intros (opcode & arg1 & arg2 & arg3 & Hf & Hop).
    apply (apply_ok_iff self opcode arg1 arg2 arg3) in Hop.
    destruct (tick_after_apply self opcode arg1 arg2 arg3 Hf) as [[Ha _]|[_ [s2 Hr]]];
      [by rewrite Ha in Hop | by rewrite Hr].
Qed.

(** X5: ADDI and ANDI whose immediate slot holds an enumeration member
    instead of an int raise TypeError and write nothing; so do ADD and AND
    when an operand register holds an enumeration member. *)
Theorem alu_type_error (self : LEG) (arg1 arg2 dest : value) :
  (is_int arg2 = false →
     _op_addi arg1 arg2 dest self = (Raise TypeError, self) ∧
     _op_andi arg1 arg2 dest self = (Raise TypeError, self)) ∧
  (is_int (value_of self arg1) && is_int (value_of self arg2) = false →
     _op_add arg1 arg2 dest self = (Raise TypeError, self) ∧
     _op_and arg1 arg2 dest self = (Raise TypeError, self)).
Proof.
  split.
  - intros H. unfold _op_addi, _op_andi, bind. rewrite !_get_run.
    destruct arg2; [discriminate | ..]; by destruct (value_of self arg1).
  - intros H. unfold _op_add, _op_and, bind. rewrite !_get_run.
    destruct (value_of self arg1), (value_of self arg2); done.
Qed.

(** ** What a tick never touches *)

Lemma same_memory_refl (self : LEG) : same_memory self self.
Proof. by repeat split. Qed.

Lemma same_memory_trans (s1 s2 s3 : LEG) :
  same_memory s1 s2 → same_memory s2 s3 → same_memory s1 s3.
Proof. unfold same_memory. intros (?&?&?&?&?) (?&?&?&?&?). repeat split; congruence. Qed.

Lemma same_memory_write (self : LEG) (arg val : value) : same_memory self (write arg val self).
Proof. unfold write. destruct (registers self !! arg); by repeat split. Qed.

Lemma same_memory_advance (s1 : LEG) : same_memory s1 (snd (advance s1)).
Proof.
  unfold advance, bind, gets. destruct (_jumping s1); cbn; [by repeat split|].
  unfold dict_getitem. destruct (registers s1 !! VAddress PC) as [[pc| |]|]; by repeat split.
Qed.

Lemma same_memory_tick (self : LEG) : same_memory self (snd (tick self)).
Proof.
  destruct (fst (_read_program self)) as [[[[opcode arg1] arg2] arg3]|e] eqn:Hf.
  - rewrite (tick_step self opcode arg1 arg2 arg3 Hf).
    destruct (apply_cases self opcode arg1 arg2 arg3) as [| |z|].
    + apply same_memory_advance.
    + apply same_memory_refl.
    + eapply same_memory_trans; [apply same_memory_write | apply same_memory_advance].
    + eapply same_memory_trans; [|apply same_memory_advance]. by repeat split.
  - pose proof (state_read_program self) as Hs.
    unfold tick. unfold bind at 1.
    destruct (_read_program self) as [r s0]. cbn in Hf, Hs. subst. apply same_memory_refl.
Qed.

(** X6: no run changes the program, the input and output streams, the RAM
    or the stack: after any number of ticks, completed or not, they are what
    they were. *)
Theorem ticks_same_memory (n : nat) (self : LEG) : same_memory self (snd (ticks n self)).
Proof.
  revert self. induction n as [|n IH]; intros self; [apply same_memory_refl|].
  cbn [ticks]. unfold bind.
  pose proof (same_memory_tick self) as H1.
  destruct (tick self) as [[[]|e] s1]; cbn in H1; [|exact H1].
  eapply same_memory_trans; [exact H1 | apply IH].
Qed.

(** X7: along every run from [__init__] the register dictionary has exactly
    the keys REG0 .. REG5 and PC (no tick adds or removes one, and IO never
    becomes one) and the jump flag is false between ticks, also after a tick
    that raised. *)
Theorem run_between_ticks (n : nat) (prog : list value) (i o : option (list Z)) :
  let self := snd (ticks n (LEG_init prog i o)) in
  dom (registers self) = register_keys ∧ _jumping self = false ∧
  (∀ arg, dict_contains (registers self) arg = true ↔ ∃ a, arg = VAddress a ∧ a ≠ IO).
Proof.
  intros self.
  destruct (ticks_between_ticks n (LEG_init prog i o) (init_between_ticks prog i o))
    as [Hdom Hj].
  fold self in Hdom, Hj. repeat split; try done.
  - intros H%dict_contains_lookup%elem_of_dom. rewrite Hdom in H.
    by apply register_keys_spec.
  - intros H%register_keys_spec. rewrite <- Hdom in H.
    by apply dict_contains_lookup, elem_of_dom.
Qed.

(** ** Programs without a handled opcode *)

Lemma advance_registers (s1 : LEG) (r : value) :
  r ≠ VAddress PC → registers (snd (advance s1)) !! r = registers s1 !! r.
Proof.
  intros Hr. unfold advance, bind, gets. destruct (_jumping s1); cbn; [done|].
  unfold dict_getitem. destruct (registers s1 !! VAddress PC) as [[pc| |]|]; cbn; try done.
  unfold dict_setitem. by rewrite lookup_insert_ne.
Qed.

Lemma list_getitem_elem (l : list value) (i v : value) :
  list_getitem l i = Ok v → v ∈ l.
Proof.
  unfold list_getitem. destruct i as [z| |]; [|discriminate ..]. cbn zeta.
  destruct ((0 <=? _) && _); [|discriminate].
  destruct (l !! _) as [w|] eqn:E; [|discriminate].
  intros [= <-]. by eapply list_elem_of_lookup_2.
Qed.

Lemma fetched_opcode_in_program (self : LEG) (opcode arg1 arg2 arg3 : value) :
  fst (_read_program self) = Ok (opcode, arg1, arg2, arg3) → opcode ∈ program self.
Proof.
  intros Hf. destruct (fetch_pc_int self _ Hf) as [pc Hpc].
  rewrite (read_program_at self pc Hpc) in Hf.
  destruct (list_getitem (program self) (VInt pc)) as [v0|] eqn:G0; [|discriminate].
  destruct (list_getitem (program self) (VInt (pc + 1))); [|discriminate].
  destruct (list_getitem (program self) (VInt (pc + 2))); [|discriminate].
  destruct (list_getitem (program self) (VInt (pc + 3))); [|discriminate].
  cbn in Hf. injection Hf as <- _ _ _. by eapply list_getitem_elem.
Qed.

Lemma inert_tick (self : LEG) :
  inert_program (program self) →
  tick self = (fst (tick self), snd (tick self)) ∧
  ((∃ e, tick self = (Raise e, self)) ∨ tick self = advance self).
Proof.
  intros Hp. split; [by destruct (tick self)|].
  destruct (fst (_read_program self)) as [[[[opcode arg1] arg2] arg3]|e] eqn:Hf.
  - right. rewrite (tick_step self opcode arg1 arg2 arg3 Hf).
    rewrite _apply_no_handler; [done|].
    eapply (proj1 (Forall_forall _ _) Hp). by eapply fetched_opcode_in_program.
  - left. exists e. pose proof (state_read_program self) as Hs.
    unfold tick. unfold bind at 1.
    destruct (_read_program self) as [r s0]. cbn in Hf, Hs. by subst.
Qed.

(** X8: a program none of whose slots is one of the five handled opcode
    members (a program of plain ints, as the padding of the demo program, or
    of LOAD, SAVE and IFNE instructions) never changes a register other than
    the program counter, however many ticks run. *)
Theorem inert_program_keeps_registers (n : nat) (self : LEG) (r : value) :
  inert_program (program self) →
  r ≠ VAddress PC →
  registers (snd (ticks n self)) !! r = registers self !! r.
Proof.
  intros Hp Hr. revert self Hp. induction n as [|n IH]; intros self Hp; [reflexivity|].
  cbn [ticks]. unfold bind.
  destruct (inert_tick self Hp) as [_ [[e He]|Ha]].
  - by rewrite He.
  - pose proof (same_memory_tick self) as (Hprog & _).
    pose proof (advance_registers self r Hr) as Hadv. rewrite <- Ha in Hadv.
    destruct (tick self) as [[[]|e] s1]; cbn in *; [|exact Hadv].
    rewrite IH; [exact Hadv | by rewrite Hprog].
Qed.

Lemma inert_program_keeps_registers_witness :
  let self := preset [(REG0, 9); (REG4, 200)]
                [VOpcode LOAD; VAddress REG0; VInt 3; VAddress REG4;
                 VInt 0x80; VAddress REG0; VInt 5; VAddress REG0] in
  registers (snd (ticks 5 self)) !! VAddress REG0 = Some (VInt 9).
Proof.
  intros self.
  rewrite (inert_program_keeps_registers 5 self (VAddress REG0)).
  - vm_compute. reflexivity.
  - repeat constructor.
  - discriminate.
Defined.

(** X9: on such a program of at least 258 slots, started between two ticks
    with the program counter at pc in [0, 255), every run of n ticks
    completes and only moves the program counter, to (pc + 4 n) mod 255. *)
Theorem inert_program_run (n : nat) (self : LEG) (pc : Z) :
  inert_program (program self) →
  (258 ≤ length (program self))%nat →
  registers self !! VAddress PC = Some (VInt pc) →
  0 ≤ pc < 255 →
  _jumping self = false →
  ticks n self =
    (Ok tt, with_registers self
              (<[VAddress PC := VInt ((pc + 4 * Z.of_nat n) mod 255)]> (registers self))).
Proof.
  intros Hp Hlen Hpc Hr Hj. revert self pc Hp Hlen Hpc Hr Hj.
  induction n as [|n IH]; intros self pc Hp Hlen Hpc Hr Hj.
  - cbn [ticks]. unfold ret. f_equal. destruct self as [p i o rm st regs j]. cbn in *.
    unfold with_registers. cbn. f_equal. symmetry. apply insert_id.
    rewrite Hpc. do 2 f_equal. rewrite Z.mod_small; lia.
  - cbn [ticks]. unfold bind.
    assert (Hf : ∃ opcode arg1 arg2 arg3,
               fst (_read_program self) = Ok (opcode, arg1, arg2, arg3)).
    { rewrite (read_program_at self pc Hpc).
      destruct (list_getitem_int (program self) pc) as [I0 _].
      destruct (list_getitem_int (program self) (pc + 1)) as [I1 _].
      destruct (list_getitem_int (program self) (pc + 2)) as [I2 _].
      destruct (list_getitem_int (program self) (pc + 3)) as [I3 _].
      destruct I0 as (v0 & _ & ->); [lia|]. destruct I1 as (v1 & _ & ->); [lia|].
      destruct I2 as (v2 & _ & ->); [lia|]. destruct I3 as (v3 & _ & ->); [lia|].
      by exists v0, v1, v2, v3. }
    destruct Hf as (opcode & arg1 & arg2 & arg3 & Hf).
    assert (Hno : dict_contains _opcodes opcode = false).
    { eapply (proj1 (Forall_forall _ _) Hp). by eapply fetched_opcode_in_program. }
    rewrite (tick_sequential self self opcode arg1 arg2 arg3 pc Hf
               (_apply_no_handler _ _ _ _ _ Hno) Hj Hpc).
    rewrite (IH _ ((pc + 4) mod 255)); try done.
    + unfold with_registers. cbn. rewrite insert_insert_eq.
      do 4 f_equal. rewrite Z.add_mod_idemp_l by lia. f_equal. lia.
    + cbn. apply lookup_insert_eq.
    + apply Z.mod_pos_bound. lia.
Qed.

Lemma inert_program_run_witness :
  let self := preset [(REG0, 9); (PC, 250)] (replicate 258 (VInt 0)) in
  registers (snd (ticks 3 self)) !! VAddress PC = Some (VInt 7).
Proof.
  intros self.
  rewrite (inert_program_run 3 self 250).
  - vm_compute. reflexivity.
  - apply Forall_forall. intros v Hv%elem_of_replicate. destruct Hv as [-> _]. reflexivity.
  - vm_compute. lia.
  - vm_compute. reflexivity.
  - lia.
  - reflexivity.
Defined.

(** ** Ticks that cannot fetch *)

(** X10: when the program counter holds an int pc with pc < -len or
    len <= pc + 3, len the length of the program, the tick raises IndexError
    and changes nothing; this is every tick on an empty program. *)
Theorem tick_index_error (self : LEG) (pc : Z) :
  registers self !! VAddress PC = Some (VInt pc) →
  pc < - Z.of_nat (length (program self)) ∨ Z.of_nat (length (program self)) ≤ pc + 3 →
  tick self = (Raise IndexError, self) ∧
  (program self = [] → ∀ n, ticks (S n) self = (Raise IndexError, self)).
Proof.
  intros Hpc Hout.
  assert (Ht : tick self = (Raise IndexError, self)).
  { assert (Hf : _read_program self = (Raise IndexError, self)).
    { rewrite (read_program_at self pc Hpc).
      destruct (list_getitem_int (program self) pc) as [I0 E0].
      destruct (list_getitem_int (program self) (pc + 1)) as [I1 E1].
      destruct (list_getitem_int (program self) (pc + 2)) as [I2 E2].
      destruct (list_getitem_int (program self) (pc + 3)) as [I3 E3].
      set (n := Z.of_nat (length (program self))) in *.
      destruct (decide (- n ≤ pc < n)) as [H0|H0]; [|by rewrite (E0 H0)].
      destruct (I0 H0) as (v0 & _ & ->).
      destruct (decide (- n ≤ pc + 1 < n)) as [H1|H1]; [|by rewrite (E1 H1)].
      destruct (I1 H1) as (v1 & _ & ->).
      destruct (decide (- n ≤ pc + 2 < n)) as [H2|H2]; [|by rewrite (E2 H2)].
      destruct (I2 H2) as (v2 & _ & ->).
      destruct (decide (- n ≤ pc + 3 < n)) as [H3|H3]; [lia|by rewrite (E3 H3)]. }
    unfold tick. unfold bind at 1. by rewrite Hf. }
  split; [exact Ht|]. intros _ n. cbn [ticks]. unfold bind. by rewrite Ht.
Qed.

Lemma tick_index_error_witness :
  tick (LEG_init [] None None) = (Raise IndexError, LEG_init [] None None).
Proof.
  apply (tick_index_error (LEG_init [] None None) 0).
  - vm_compute. reflexivity.
  - right. vm_compute. discriminate.
Defined.

(** X11: once the program counter holds an enumeration member (a taken IFEQ
    stores its target slot as it is), every further tick raises TypeError and
    changes nothing: the machine is stuck. *)
Theorem tick_pc_not_int (self : LEG) (v : value) (n : nat) :
  registers self !! VAddress PC = Some v →
  is_int v = false →
  ticks (S n) self = (Raise TypeError, self).
Proof.
  intros Hpc Hv.
  assert (Hf : _read_program self = (Raise TypeError, self)).
  { unfold _read_program, bind, gets, lift, dict_getitem. rewrite Hpc.
    by destruct v. }
  cbn [ticks]. unfold bind at 1, tick. unfold bind at 1. by rewrite Hf.
Qed.

Lemma tick_pc_not_int_witness :
  let self := snd (tick (LEG_init [VOpcode IFEQ; VInt 1; VInt 2; VAddress REG0] None None)) in
  registers self !! VAddress PC = Some (VAddress REG0) ∧
  ticks 3 self = (Raise TypeError, self).
Proof.
  intros self. split; [by vm_compute|].
  apply (tick_pc_not_int self (VAddress REG0) 2); vm_compute; reflexivity.
Defined.

(** ** Conditional jumps *)

(** X12: IFEQ compares what [_get] returns, so an operand that is not a
    register key counts as 0: IFEQ with the same operand twice always jumps,
    and IFEQ of a register against a literal jumps exactly when the register
    holds 0, whatever the literal. *)
Theorem ifeq_operands (self : LEG) (A B target : value) :
  let jumped :=
    (Ok tt, with_jumping
              (with_registers self (<[VAddress PC := target]> (registers self))) true) in
  _op_ifeq A A target self = jumped ∧
  (registers self !! B = None →
     (fst (_get A self) = Ok (VInt 0) → _op_ifeq A B target self = jumped) ∧
     (fst (_get A self) ≠ Ok (VInt 0) → _op_ifeq A B target self = (Ok tt, self))).
Proof.
  intros jumped. split.
  - rewrite op_ifeq_run. unfold py_eq. by rewrite bool_decide_eq_true_2.
  - intros HB. rewrite op_ifeq_run, _get_run. cbn [fst].
    assert (HB0 : value_of self B = VInt 0) by (unfold value_of; by rewrite HB).
    rewrite HB0. unfold py_eq. split; intros H.
    + rewrite bool_decide_eq_true_2; [done | congruence].
    + rewrite bool_decide_eq_false_2; [done | congruence].
Qed.

Lemma ifeq_operands_witness :
  let self := preset [(REG1, 7)] [] in
  _op_ifeq (VAddress REG1) (VInt 7) (VInt 40) self = (Ok tt, self) ∧
  fst (_op_ifeq (VAddress REG0) (VInt 7) (VInt 40) self) = Ok tt ∧
  registers (snd (_op_ifeq (VAddress REG0) (VInt 7) (VInt 40) self)) !! VAddress PC
    = Some (VInt 40).
Proof.
  intros self.
  destruct (ifeq_operands self (VAddress REG1) (VInt 7) (VInt 40)) as [_ H1].
  destruct (ifeq_operands self (VAddress REG0) (VInt 7) (VInt 40)) as [_ H0].
  split; [|split].
  - apply H1; [vm_compute; reflexivity | vm_compute; discriminate].
  - rewrite (proj1 (H0 ltac:(vm_compute; reflexivity))); [reflexivity | vm_compute; reflexivity].
  - rewrite (proj1 (H0 ltac:(vm_compute; reflexivity))); vm_compute; reflexivity.
Defined.

(** ** The demo program *)

Lemma ticks_add (n m : nat) (self : LEG) :
  ticks (n + m) self =
    match ticks n self with
    | (Ok _, s1) => ticks m s1
    | (Raise e, s1) => (Raise e, s1)
    end.
Proof.
  revert self. induction n as [|n IH]; intros self; [reflexivity|].
  cbn [ticks Nat.add]. unfold bind.
  destruct (tick self) as [[[]|e] s1]; [apply IH | reflexivity].
Qed.

Lemma main_three_ticks (a b c : Z) :
  let a' := (a + 0x10101010) mod 255 in
  let b' := (b + 10) mod 255 in
  ticks 3 (main_machine a b c) =
    (Ok tt, with_registers (main_machine a' b' (Z.land a' b'))
              (<[VAddress PC := VInt 12]> (registers (main_machine a' b' (Z.land a' b'))))).
Proof. reflexivity. Qed.

Lemma main_fourth_tick (a b c : Z) :
  tick (with_registers (main_machine a b c)
          (<[VAddress PC := VInt 12]> (registers (main_machine a b c)))) =
    (Ok tt, main_machine a b c).
Proof.
  set (s := with_registers _ _).
  rewrite (tick_jumped s
             (with_jumping (with_registers s (<[VAddress PC := VInt 0]> (registers s))) true)
             (VOpcode IFEQ) (VAddress REG2) (VAddress REG2) (VInt 0)).
  - reflexivity.
  - reflexivity.
  - rewrite (_apply_handler _ _ _ _ _op_ifeq); [|by rewrite _opcodes_opcode].
    rewrite op_ifeq_run. unfold py_eq. by rewrite bool_decide_eq_true_2.
  - reflexivity.
Qed.

Lemma main_four_ticks (a b c : Z) :
  let a' := (a + 0x10101010) mod 255 in
  let b' := (b + 10) mod 255 in
  ticks 4 (main_machine a b c) = (Ok tt, main_machine a' b' (Z.land a' b')).
Proof.
  intros a' b'. change 4%nat with (3 + 1)%nat. rewrite ticks_add, main_three_ticks.
  cbn [ticks]. unfold bind. by rewrite main_fourth_tick.
Qed.

Lemma main_round_step (k : Z) :
  ticks 4 (main_round k) = (Ok tt, main_round (k + 1)).
Proof.
  unfold main_round. rewrite main_four_ticks. cbn zeta.
  assert (Ha : (64 * k mod 255 + 0x10101010) mod 255 = (64 * (k + 1)) mod 255).
  { rewrite Z.add_mod_idemp_l by lia.
    replace (64 * k + 0x10101010) with (64 * (k + 1) + 1056816 * 255) by lia.
    apply Z_mod_plus_full. }
  assert (Hb : (10 * k mod 255 + 10) mod 255 = (10 * (k + 1)) mod 255).
  { rewrite Z.add_mod_idemp_l by lia. f_equal. lia. }
  by rewrite Ha, Hb.
Qed.

Lemma main_rounds (k : nat) (j : Z) :
  ticks (k * 4) (main_round j) = (Ok tt, main_round (j + Z.of_nat k)).
Proof.
  revert j. induction k as [|k IH]; intros j.
  - cbn [Nat.mul ticks]. unfold ret. do 2 f_equal. lia.
  - change (S k * 4)%nat with (4 + k * 4)%nat.
    rewrite ticks_add, main_round_step, IH. do 2 f_equal. lia.
Qed.

(** X13: the demo program of the [__main__] block never raises, however
    long it runs: every round of four ticks adds 64 to REG0 and 10 to REG1
    (mod 255), leaves their bitwise and in REG2 and jumps back to 0, so
    after 4 k ticks REG0 = 64 k mod 255, REG1 = 10 k mod 255 and PC = 0. *)
Theorem main_program_loops (k : nat) :
  ticks (k * 4) (LEG_init main_program None None) = (Ok tt, main_round (Z.of_nat k)) ∧
  registers (main_round (Z.of_nat k)) !! VAddress REG0 = Some (VInt ((64 * Z.of_nat k) mod 255)) ∧
  registers (main_round (Z.of_nat k)) !! VAddress REG1 = Some (VInt ((10 * Z.of_nat k) mod 255)) ∧
  registers (main_round (Z.of_nat k)) !! VAddress PC = Some (VInt 0) ∧
  (∀ n, fst (ticks n (LEG_init main_program None None)) = Ok tt).
Proof.
  assert (Hrun : ∀ k, ticks (k * 4) (LEG_init main_program None None)
                      = (Ok tt, main_round (Z.of_nat k))).
  { intros k'. change (LEG_init main_program None None) with (main_round 0).
    by rewrite main_rounds. }
  split; [apply Hrun|]. split; [reflexivity|]. split; [reflexivity|]. split; [reflexivity|].
  intros n.
  assert (Hle : (n ≤ n * 4)%nat) by lia.
  pose proof (Hrun n) as Hn.
  replace (n * 4)%nat with (n + (n * 4 - n))%nat in Hn by lia.
  rewrite ticks_add in Hn.
  destruct (ticks n (LEG_init main_program None None)) as [[[]|e] s1]; [reflexivity|discriminate].
Qed.

(** ** Reading back what was written *)

(** X14: [_set] followed by [_get]: a register key reads back the value
    just written, any other operand reads what it read before (a write to a
    non-key is lost); a second write to the same operand overrides the
    first; writing back the value just read changes nothing. *)
Theorem set_then_get (self : LEG) (arg arg' val val' : value) :
  fst (_get arg' (snd (_set arg val self))) =
    (if dict_contains (registers self) arg && py_eq arg' arg
     then Ok val else fst (_get arg' self)) ∧
  snd (_set arg val' (snd (_set arg val self))) = snd (_set arg val' self) ∧
  (fst (_get arg self) = Ok val → snd (_set arg val self) = self).
Proof.
  rewrite !_set_run, !_get_run. cbn [fst snd]. split; [|split].
  - unfold dict_contains, py_eq, value_of, write.
    destruct (registers self !! arg) as [v|] eqn:E; cbn; [|reflexivity].
    case_bool_decide as Heq.
    + subst. by rewrite lookup_insert_eq.
    + by rewrite lookup_insert_ne.
  - unfold write. destruct (registers self !! arg) as [v|] eqn:E; cbn; [|by rewrite E].
    rewrite lookup_insert_eq. unfold with_registers. cbn. by rewrite insert_insert_eq.
  - unfold value_of, write. intros H.
    destruct (registers self !! arg) as [v|] eqn:E; [|reflexivity].
    injection H as ->. rewrite insert_id by done. by destruct self.
Qed.

Lemma set_then_get_witness :
  let self := preset [(REG1, 7)] [] in
  snd (_set (VAddress REG1) (VInt 7) self) = self.
Proof.
  intros self.
  apply (set_then_get self (VAddress REG1) (VAddress REG1) (VInt 7) (VInt 7)).
  vm_compute. reflexivity.
Defined.

(** ** Algebra of the ALU *)

(** X15: ADD and AND do not depend on the order of their two source
    operands: the result, and the exception if one is raised, are the
    same. *)
Theorem add_and_commute (self : LEG) (arg1 arg2 dest : value) :
  _op_add arg1 arg2 dest self = _op_add arg2 arg1 dest self ∧
  _op_and arg1 arg2 dest self = _op_and arg2 arg1 dest self.
Proof.
  unfold _op_add, _op_and, bind. rewrite !_get_run.
  destruct (value_of self arg1) as [x| |], (value_of self arg2) as [y| |]; cbn;
    try done.
  by rewrite (Z.add_comm x y), (Z.land_comm x y).
Qed.

(** X16: two idioms of the instruction set.  ADDI from a source that is not
    a register key (IO, a literal) loads the immediate, reduced mod 255, into
    the destination register; AND of a register with itself copies it to the
    destination register unreduced. *)
Theorem load_and_move (self : LEG) (src dest : value) (imm a : Z) :
  dict_contains (registers self) dest = true →
  (registers self !! src = None →
     _op_addi src (VInt imm) dest self =
       (Ok tt, with_registers self (<[dest := VInt (imm mod 255)]> (registers self)))) ∧
  (registers self !! src = Some (VInt a) →
     _op_and src src dest self =
       (Ok tt, with_registers self (<[dest := VInt a]> (registers self)))).
Proof.
  intros Hd%dict_contains_lookup. destruct Hd as [d Hd]. split; intros Hs.
  - rewrite (_op_addi_run self src dest 0 imm); [|unfold value_of; by rewrite Hs].
    unfold write. by rewrite Hd.
  - rewrite (_op_and_run self src src dest a a); [|unfold value_of; by rewrite Hs ..].
    unfold write. by rewrite Hd, Z.land_diag.
Qed.

Lemma load_and_move_witness :
  let self := preset [(REG1, 254)] [] in
  registers (snd (_op_addi (VAddress IO) (VInt 300) (VAddress REG0) self)) !! VAddress REG0
    = Some (VInt 45) ∧
  registers (snd (_op_and (VAddress REG1) (VAddress REG1) (VAddress REG5) self)) !! VAddress REG5
    = Some (VInt 254).
Proof.
  intros self.
  destruct (load_and_move self (VAddress IO) (VAddress REG0) 300 0) as [Hload _];
    [vm_compute; reflexivity|].
  destruct (load_and_move self (VAddress REG1) (VAddress REG5) 0 254) as [_ Hmove];
    [vm_compute; reflexivity|].
  rewrite Hload, Hmove; [split; vm_compute; reflexivity | vm_compute; reflexivity ..].
Defined.

(** ** Codes of the enumerations *)

(** X17: within each enumeration no two members share a code (so no name is
    an alias of another member), every code fits in a byte, and looking a
    member up by its code is the inverse of taking its code; across the two
    enumerations codes do collide (ADD and REG0 are both 0, AND and REG1
    both 1). *)
Theorem enum_codes :
  (∀ o o', Opcodes_value o = Opcodes_value o' → o = o') ∧
  (∀ a a', Addresses_value a = Addresses_value a' → a = a') ∧
  (∀ n o, Opcodes_of_value n = Some o ↔ Opcodes_value o = n) ∧
  (∀ n a, Addresses_of_value n = Some a ↔ Addresses_value a = n) ∧
  (∀ o, 0 ≤ Opcodes_value o < 256) ∧
  (∀ a, 0 ≤ Addresses_value a < 256) ∧
  Opcodes_value ADD = Addresses_value REG0 ∧
  Opcodes_value AND = Addresses_value REG1.
Proof.
  assert (Ho : ∀ n o, Opcodes_of_value n = Some o → Opcodes_value o = n).
  { intros n o. unfold Opcodes_of_value.
    repeat (match goal with |- context [match ?x with _ => _ end] => destruct x end;
            try discriminate); by intros [= <-]. }
  assert (Ha : ∀ n a, Addresses_of_value n = Some a → Addresses_value a = n).
  { intros n a. unfold Addresses_of_value.
    repeat (match goal with |- context [match ?x with _ => _ end] => destruct x end;
            try discriminate); by intros [= <-]. }
  split; [intros o o' H; apply (inj Some);
          by rewrite <- (Opcodes_of_value_inv o), H, Opcodes_of_value_inv|].
  split; [intros a a' H; apply (inj Some);
          by rewrite <- (Addresses_of_value_inv a), H, Addresses_of_value_inv|].
  split; [intros n o; split; [apply Ho | intros <-; apply Opcodes_of_value_inv]|].
  split; [intros n a; split; [apply Ha | intros <-; apply Addresses_of_value_inv]|].
  split; [intros o; destruct o; cbn; lia|].
  split; [intros a; destruct a; cbn; lia|].
  done.
Qed.

(** ** Concrete runs of the failure properties *)

Lemma tick_raise_unchanged_witness :
  let self := preset [(REG0, 3); (PC, 4)]
                [VInt 0; VInt 0; VInt 0; VInt 0;
                 VOpcode ADDI; VAddress REG0; VAddress REG1; VAddress REG0] in
  tick self = (Raise TypeError, self).
Proof.
  intros self. apply (tick_raise_unchanged self TypeError). vm_compute. reflexivity.
Defined.

Lemma tick_raises_only_witness :
  let self := preset [(PC, 2)] [VInt 0; VInt 0; VInt 0; VInt 0] in
  IndexError = IndexError ∨ IndexError = TypeError ∨
  (IndexError = KeyError ∧ registers self !! VAddress PC = None).
Proof.
  intros self. apply (tick_raises_only self IndexError). vm_compute. reflexivity.
Defined.

Lemma alu_type_error_witness :
  let self := preset [(REG0, 3)] [] in
  _op_addi (VAddress REG0) (VAddress REG1) (VAddress REG0) self = (Raise TypeError, self) ∧
  _op_andi (VAddress REG0) (VAddress REG1) (VAddress REG0) self = (Raise TypeError, self).
Proof.
  intros self.
  apply (alu_type_error self (VAddress REG0) (VAddress REG1) (VAddress REG0)).
  reflexivity.
Defined.
